(** * render.py: the three-stage streaming render pipeline

    A shallow embedding of [render] (src/render.py): the batch scheduler on
    the main thread, the [split_batches] worker that turns raw generator
    batches into frames, and the [make_video] worker that writes frames to
    the standard input of the encoder subprocess.

    Python values are embedded as follows.
    - float tensors hold rationals ([Q]); the rounding of float32 arithmetic
      is the function [rnd] of the section;
    - a Python float is the rational it stands for, and an operation on
      floats rounds its exact result with [binary64];
    - an exception is a constructor of [exn], and code that can raise
      returns a [result];
    - [queue.Queue()] is an unbounded FIFO list; a [get(timeout=10)] that
      finds the queue empty may time out, which is a step of its own;
    - the threads are interleaved by an explicit schedule of [label]s. *)

From Stdlib Require Import String Ascii ZArith QArith Qabs Qround Lqa Bool Arith
  Lia List.
Import ListNotations.
Local Open Scope nat_scope.

(** ** Exceptions and fallible code *)

Module Py.

Inductive exn : Type :=
| NameError | TypeError | AttributeError | KeyError | IndexError
| ValueError | ZeroDivisionError | RuntimeError | AssertionError
| Empty.                                   (* queue.Empty *)

Inductive result (A : Type) : Type :=
| Ok (a : A)
| Raise (e : exn).
Arguments Ok {A} a.
Arguments Raise {A} e.

Definition bind {A B} (r : result A) (k : A -> result B) : result B :=
  match r with
  | Ok a => k a
  | Raise e => Raise e
  end.

Definition is_ok {A} (r : result A) : bool :=
  match r with Ok _ => true | Raise _ => false end.

Definition error_of {A} (r : result A) : option exn :=
  match r with Ok _ => None | Raise e => Some e end.

(** [l[start:stop]] for non-negative bounds. *)
Definition slice {A} (start stop : nat) (l : list A) : list A :=
  skipn start (firstn stop l).

(** [l[start:-back]]: a negative stop counts from the end. *)
Definition slice_neg {A} (start back : nat) (l : list A) : list A :=
  skipn start (firstn (length l - back) l).

(** [range(n, stop, step)] for a positive [step]: the values n, n+step, ...
    below [stop].  [fuel] bounds the number of values. *)
Fixpoint range_from (fuel n stop step : nat) : list nat :=
  match fuel with
  | O => []
  | S fuel' =>
      if n <? stop then n :: range_from fuel' (n + step) stop step else []
  end.

(** [range(0, stop, step)]; a zero step raises ValueError. *)
Definition range (stop step : nat) : result (list nat) :=
  if step =? 0 then Raise ValueError else Ok (range_from stop 0 stop step).

(** The objects that [render] inspects dynamically: callables, tensors,
    tuples and lists, booleans and strings. *)
#[warnings="-register-all"]
Inductive obj (F T : Type) : Type :=
| OFun (f : F)
| OTensor (t : T)
| OTuple (items : list (obj F T))
| OList (items : list (obj F T))
| OBool (b : bool)
| OStr (s : string).
Arguments OFun {F T} f.
Arguments OTensor {F T} t.
Arguments OTuple {F T} items.
Arguments OList {F T} items.
Arguments OBool {F T} b.
Arguments OStr {F T} s.

(** Truth value of an object, as [assert] and [if] take it. *)
Definition truthy {F T} (o : obj F T) : bool :=
  match o with
  | OFun _ => true
  | OTensor _ => true
  | OTuple items => negb (Nat.eqb (length items) 0)
  | OList items => negb (Nat.eqb (length items) 0)
  | OBool b => b
  | OStr s => negb (Nat.eqb (String.length s) 0)
  end.

(** [assert o]. *)
Definition assert_ {F T} (o : obj F T) : result unit :=
  if truthy o then Ok tt else Raise AssertionError.

(** [s.split(sep)] for a one-character separator. *)
Fixpoint split (sep : ascii) (s : string) : list string :=
  match s with
  | EmptyString => [EmptyString]
  | String c rest =>
      if Ascii.eqb c sep then EmptyString :: split sep rest
      else match split sep rest with
           | [] => [String c EmptyString]
           | w :: ws => String c w :: ws
           end
  end.

Definition digit (c : ascii) : option nat :=
  let n := nat_of_ascii c in
  if (48 <=? n) && (n <=? 57) then Some (n - 48) else None.

Fixpoint int_digits (acc : nat) (s : string) : result nat :=
  match s with
  | EmptyString => Ok acc
  | String c rest =>
      match digit c with
      | Some d => int_digits (10 * acc + d) rest
      | None => Raise ValueError
      end
  end.

(** [int(s)] on an unsigned decimal literal. *)
Definition int (s : string) : result nat :=
  match s with
  | EmptyString => Raise ValueError
  | _ => int_digits 0 s
  end.

(** [l[i]] on a list. *)
Definition index {A} (l : list A) (i : nat) : result A :=
  match nth_error l i with
  | Some a => Ok a
  | None => Raise IndexError
  end.

End Py.
Import Py.

Notation "x <- c1 ;; c2" := (Py.bind c1 (fun x => c2))
  (at level 61, c1 at next level, right associativity).

(** ** Tensors, frames and the encoder *)

(** A tensor is indexed by its first axis (one row per frame); the other
    axes are flattened into the row. *)
Definition tensor := list (list Q).

Definition image := list (list (list Q)).       (* C x H x W, float *)
Definition raw_batch := list image.             (* N x C x H x W *)
Definition frame := list (list (list Z)).       (* H x W x C, uint8 *)
Definition bytes := list Z.

(** [img.shape[0]], [img.shape[1]], [img.shape[2]] of a rectangular array. *)
Definition shape0 {A} (img : list (list (list A))) : nat := length img.
Definition shape1 {A} (img : list (list (list A))) : nat := length (hd [] img).
Definition shape2 {A} (img : list (list (list A))) : nat :=
  length (hd [] (hd [] img)).

(** Every plane of [img] is [d1] x [d2]. *)
Definition rect {A} (d1 d2 : nat) (img : list (list (list A))) : Prop :=
  Forall (fun plane => length plane = d1 /\
                       Forall (fun row => length row = d2) plane) img.

(** [x.clamp_(lo, hi)] on one element. *)
Definition clamp (lo hi x : Q) : Q :=
  if Qle_bool x lo then lo else if Qle_bool hi x then hi else x.

(** [a.astype(np.uint8)] on one element: truncation toward zero, modulo 256. *)
Definition astype_uint8 (x : Q) : Z :=
  Z.modulo (Z.quot (Qnum x) (Zpos (Qden x))) 256.

(** [img.tobytes()]: the elements in C order. *)
Definition tobytes (img : frame) : bytes := concat (map (@concat Z) img).

(** [t.permute(1, 2, 0)] on one image: out[h][w][c] = in[c][h][w]. *)
Definition permute_hwc {A} (d : A) (img : list (list (list A)))
  : list (list (list A)) :=
  map (fun h => map (fun w => map (fun plane => nth w (nth h plane []) d) img)
                    (seq 0 (shape2 img)))
      (seq 0 (shape1 img)).

(** [img[c][h][w]] of a raw image and [fr[h][w][c]] of a frame. *)
Definition pixel_in (img : image) (c h w : nat) : Q :=
  nth w (nth h (nth c img []) []) 0%Q.
Definition pixel_out (fr : frame) (h w c : nat) : Z :=
  nth c (nth w (nth h fr []) []) 0%Z.

(** [img[:, 112:-112, :]]. *)
Definition crop_columns (img : frame) : frame := map (slice_neg 112 112) img.

(** *** Python floats *)

(** [n / d] rounded to an integer, ties to even ([n >= 0], [d > 0]). *)
Definition round_half_even (n d : Z) : Z :=
  let q := (n / d)%Z in
  let r := (n mod d)%Z in
  if (2 * r <? d)%Z then q
  else if (d <? 2 * r)%Z then (q + 1)%Z
  else if Z.even q then q else (q + 1)%Z.

(** The double nearest to [x], ties to even: a significand of 53 bits and
    an exponent not below -1074.  Past the largest double Python gives
    [inf], which is not a rational: the exponent has no upper end here. *)
Definition binary64 (x : Q) : Q :=
  let n := Z.abs (Qnum x) in
  let d := Zpos (Qden x) in
  if (n =? 0)%Z then 0%Q
  else
    let scaled (e : Z) :=
      if (0 <=? e)%Z then (n, (d * 2 ^ e)%Z) else ((n * 2 ^ (- e))%Z, d) in
    let e0 := (Z.log2 n - Z.log2 d - 52)%Z in
    let e1 :=
      if (fst (scaled e0) / snd (scaled e0) <? 2 ^ 52)%Z
      then (e0 - 1)%Z else e0 in
    let e := Z.max e1 (-1074) in
    let m :=
      (Z.sgn (Qnum x) * round_half_even (fst (scaled e)) (snd (scaled e)))%Z in
    Qred (if (0 <=? e)%Z then inject_Z (m * 2 ^ e)
          else Qmake m (Z.to_pos (2 ^ (- e)))).

Record encoder_cfg : Type := {
  enc_format : string;
  enc_pix_fmt : string;
  enc_framerate : Q;
  enc_s : string;
  enc_audio : option (string * Q * Q);     (* file, ss, to *)
  enc_output : string
}.

(** The encoder subprocess as [make_video] sees it. *)
Record process : Type := {
  stdin_writes : list bytes;
  stdin_closed : bool;
  waited : bool
}.

(** ** The arguments of [render] *)

(** [truncation]: a Python float, a Python int (the default is [1]) or a
    tensor with one row per frame. *)
Inductive truncation_value : Type :=
| TFloat (x : Q)
| TInt (z : Z)
| TTensor (t : tensor).

(** A value of the [rewrites] dict. *)
Definition rewrite_obj : Type := obj (tensor -> nat -> tensor) tensor.

(** The generator object as [render] uses it: its named parameters, and the
    attributes installed on it with [setattr]. *)
Record generator_state : Type := {
  named_parameters : list (string * tensor);
  attributes : list (string * tensor)
}.

Definition setattr (g : generator_state) (name : string) (w : tensor)
  : generator_state :=
  {| named_parameters := named_parameters g;
     attributes := (name, w) :: attributes g |}.

(** Module-level names of render.py that [render] reads.  The file binds
    no [original_weights]; another module could have set it. *)
Record module_globals : Type := {
  original_weights : option (list (string * tensor))
}.

Definition render_py_globals : module_globals :=
  {| original_weights := None |}.

Fixpoint lookup {A} (k : string) (d : list (string * A)) : option A :=
  match d with
  | [] => None
  | (k', v) :: rest => if String.eqb k k' then Some v else lookup k rest
  end.

(** [d[k]]. *)
Definition getitem {A} (d : list (string * A)) (k : string) : result A :=
  match lookup k d with
  | Some v => Ok v
  | None => Raise KeyError
  end.

(** [d[k] = v], keeping the position of an existing key. *)
Fixpoint setitem {A} (d : list (string * A)) (k : string) (v : A)
  : list (string * A) :=
  match d with
  | [] => [(k, v)]
  | (k', v') :: rest =>
      if String.eqb k k' then (k, v) :: rest else (k', v') :: setitem rest k v
  end.

Section Render.

(** Layer transforms handed to the generator; opaque to [render]. *)
Variable Xf : Type.

Inductive bend : Type :=
| BendStatic (layer : string) (transform : Xf)
| BendMod (layer : string) (transform : tensor -> Xf) (modulation : tensor).

Record gen_input : Type := {
  gi_styles : tensor;
  gi_noise : list (option tensor);
  gi_truncation : truncation_value;
  gi_transform_dict_list : list (string * Xf);
  gi_randomize_noise : bool;
  gi_input_is_latent : bool
}.

Record args : Type := {
  a_generator : generator_state;
  a_latents : tensor;
  a_noise : list (option tensor);
  a_offset : Q;
  a_duration : Q;
  a_batch_size : nat;
  a_out_size : Z;
  a_output_file : string;
  a_audio_file : option string;
  a_truncation : truncation_value;
  a_bends : list bend;
  a_rewrites : list (string * rewrite_obj);
  a_randomize_noise : bool
}.

(** The collaborators: the generator's forward pass, PIL's
    [Image.fromarray(img).resize((w, h), BILINEAR)] read back as an array,
    float32 rounding, and the [copy] method of a parameter.  [pil_resize]
    is what PIL returns for an array that [fromarray] takes, such as the
    three-channel frames of an RGB generator; the TypeError it raises on
    another array is not part of this development. *)
Variable generator : generator_state -> gen_input -> raw_batch.
Variable pil_resize : nat -> nat -> frame -> frame.
Variable rnd : Q -> Q.
Variable tensor_copy : tensor -> result tensor.

(** *** split_batches, on one batch (lines 38-41) *)

(** [(imgs.clamp_(-1, 1) + 1) * 127.5] on one element. *)
Definition scale (x : Q) : Q :=
  rnd (rnd (clamp (-1) 1 x + 1) * (255 # 2)).

Definition split_frames (imgs : raw_batch) : list frame :=
  let imgs := map (map (map (map scale))) imgs in
  let imgs := map (permute_hwc 0%Q) imgs in
  map (fun img => map (map (map astype_uint8)) img) imgs.

(** *** Encoder start (lines 45-71) *)

Definition output_size (out_size : Z) : string :=
  if Z.eqb out_size 1024 then "1024x1024"%string
  else if Z.eqb out_size 512 then "512x512"%string
  else "1920x1080"%string.

(** [len(latents) / duration], a division of floats. *)
Definition framerate (a : args) : result Q :=
  if Qeq_bool (a_duration a) 0 then Raise ZeroDivisionError
  else Ok (binary64
             (inject_Z (Z.of_nat (length (a_latents a))) / a_duration a)).

Definition start_encoder (a : args) : result encoder_cfg :=
  let audio :=
    match a_audio_file a with
    | Some f => Some (f, a_offset a, binary64 (a_offset a + a_duration a))
    | None => None
    end in
  fr <- framerate a ;;
  Ok {| enc_format := "rawvideo"; enc_pix_fmt := "rgb24";
        enc_framerate := fr; enc_s := output_size (a_out_size a);
        enc_audio := audio; enc_output := a_output_file a |}.

(** *** make_video, on one frame (lines 77-85) *)

Definition sink_image (img : frame) : frame :=
  if shape1 img =? 2048 then pil_resize 1920 1080 (crop_columns img) else img.

(** The tuple that line 81 hands to [assert]. *)
Definition size_check (osize : string) (img : frame)
  : result (obj unit unit) :=
  p1 <- index (split "x" osize) 1 ;;
  h <- int p1 ;;
  c <- (if shape1 img =? h
        then p0 <- index (split "x" osize) 0 ;;
             w <- int p0 ;;
             Ok (shape2 img =? w)
        else Ok false) ;;
  Ok (OTuple
        [OBool c;
         OStr "generator's output image size does not match specified output size"]).

Definition make_video_frame (osize : string) (img : frame) : result bytes :=
  let img := sink_image img in
  t <- size_check osize img ;;
  _ <- assert_ t ;;
  Ok (tobytes img).

(** *** Per-run setup (lines 97-112) *)

(** What the batch loop reads after the setup. *)
Record env : Type := {
  e_args : args;
  e_encoder : encoder_cfg;
  e_rewrites : list (string * rewrite_obj);
  e_original_weights : list (string * tensor);
  e_truncation : truncation_value
}.

(** [(transform, modulation) = v]. *)
Definition unpack2 (v : rewrite_obj) : result (rewrite_obj * rewrite_obj) :=
  match v with
  | OTuple [x; y] | OList [x; y] => Ok (x, y)
  | OTuple _ | OList _ => Raise ValueError
  | OTensor [x; y] => Ok (OTensor [x], OTensor [y])
  | OTensor _ => Raise ValueError
  | OStr (String x (String y EmptyString)) =>
      Ok (OStr (String x EmptyString), OStr (String y EmptyString))
  | OStr _ => Raise ValueError
  | OFun _ | OBool _ => Raise TypeError
  end.

(** [o.float().contiguous().pin_memory()]. *)
Definition pin (o : rewrite_obj) : result tensor :=
  match o with
  | OTensor t => Ok t
  | _ => Raise AttributeError
  end.

(** Lines 103-105, over the items of [rewrites] in dict order.  [rw] is the
    dict being updated in place, [ow] the binding of the global
    [original_weights]. *)
Fixpoint prepare_rewrites (g : generator_state)
    (items : list (string * rewrite_obj))
    (rw : list (string * rewrite_obj))
    (ow : option (list (string * tensor)))
  : result (list (string * rewrite_obj) * option (list (string * tensor))) :=
  match items with
  | [] => Ok (rw, ow)
  | (param, v) :: rest =>
      tm <- unpack2 v ;;
      m <- pin (snd tm) ;;
      let rw := setitem rw param (OList [fst tm; OTensor m]) in
      p <- getitem (named_parameters g) param ;;
      w <- tensor_copy p ;;
      match ow with
      | None => Raise NameError
      | Some d => prepare_rewrites g rest rw (Some (setitem d param w))
      end
  end.

(** Lines 111-112. *)
Definition prepare_truncation (t : truncation_value) : result truncation_value :=
  match t with
  | TFloat x => Ok (TFloat x)
  | TInt _ => Raise AttributeError
  | TTensor t => Ok (TTensor t)
  end.

Definition render_setup (gl : module_globals) (a : args) : result env :=
  enc <- start_encoder a ;;
  r <- prepare_rewrites (a_generator a) (a_rewrites a) (a_rewrites a)
         (original_weights gl) ;;
  tr <- prepare_truncation (a_truncation a) ;;
  Ok {| e_args := a; e_encoder := enc; e_rewrites := fst r;
        e_original_weights := match snd r with Some d => d | None => [] end;
        e_truncation := tr |}.

(** *** One iteration of the batch loop (lines 116-148) *)

(** [rewrite(original_weights[param], n)]. *)
Definition call (o : rewrite_obj) (w : tensor) (n : nat) : result tensor :=
  match o with
  | OFun f => Ok (f w n)
  | _ => Raise TypeError
  end.

(** Lines 134-136.  The generator is changed in place: the attributes set
    before an exception stay. *)
Fixpoint apply_rewrites (ow : list (string * tensor))
    (items : list (string * rewrite_obj)) (n : nat) (g : generator_state)
  : generator_state * option exn :=
  match items with
  | [] => (g, None)
  | (param, rewrite) :: rest =>
      match (w0 <- getitem ow param ;; call rewrite w0 n) with
      | Ok w => apply_rewrites ow rest n (setattr g param w)
      | Raise x => (g, Some x)
      end
  end.

(** Line 138. *)
Definition truncation_batch (t : truncation_value) (n b : nat)
  : result truncation_value :=
  match t with
  | TFloat x => Ok (TFloat x)
  | TInt _ => Raise TypeError
  | TTensor t => Ok (TTensor (slice n (n + b) t))
  end.

Definition bend_batch (bends : list bend) (n b : nat) : list (string * Xf) :=
  map (fun bd =>
         match bd with
         | BendStatic layer transform => (layer, transform)
         | BendMod layer transform modulation =>
             (layer, transform (slice n (n + b) modulation))
         end) bends.

Definition batch_input (e : env) (n : nat) (tb : truncation_value)
  : gen_input :=
  let a := e_args e in
  let b := a_batch_size a in
  {| gi_styles := slice n (n + b) (a_latents a);
     gi_noise := map (option_map (slice n (n + b))) (a_noise a);
     gi_truncation := tb;
     gi_transform_dict_list := bend_batch (a_bends a) n b;
     gi_randomize_noise := a_randomize_noise a;
     gi_input_is_latent := true |}.

(** The generator state after the rewrites and, unless an exception was
    raised, the arguments of the forward pass and its output. *)
Definition batch_step (e : env) (g : generator_state) (n : nat)
  : generator_state * result (gen_input * raw_batch) :=
  match apply_rewrites (e_original_weights e) (e_rewrites e) n g with
  | (g', Some x) => (g', Raise x)
  | (g', None) =>
      (g', tb <- truncation_batch (e_truncation e) n (a_batch_size (e_args e)) ;;
           let inp := batch_input e n tb in
           Ok (inp, generator g' inp))
  end.

(** *** The three threads *)

Inductive main_status : Type :=
| MLoop (starts : list nat)      (* line 114, the batch starts still to run *)
| MJoinSplitter                  (* line 157 *)
| MJoinRenderer                  (* line 158 *)
| MReturned
| MRaised (e : exn).

Inductive splitter_status : Type :=
| SNotStarted
| SGet                           (* line 35 *)
| SPut (pending : list frame)    (* lines 40-42 *)
| SReturned.                     (* line 37 *)

Inductive renderer_status : Type :=
| RNotStarted
| RLoop (remaining : nat)        (* line 75 *)
| RDone                          (* after line 88 *)
| RRaised (e : exn).

Record state : Type := {
  main : main_status;
  gen : generator_state;
  calls : list gen_input;             (* the forward passes made so far *)
  split_queue : list raw_batch;
  render_queue : list frame;
  splitter : splitter_status;
  renderer : renderer_status;
  video : process
}.

Definition set_main (m : main_status) (s : state) : state :=
  {| main := m; gen := gen s; calls := calls s;
     split_queue := split_queue s; render_queue := render_queue s;
     splitter := splitter s; renderer := renderer s; video := video s |}.

(** [splitter.start(); renderer.start()]: a thread starts once. *)
Definition start_threads (n_frames : nat) (s : state) : result state :=
  match splitter s, renderer s with
  | SNotStarted, RNotStarted =>
      Ok {| main := main s; gen := gen s; calls := calls s;
            split_queue := split_queue s; render_queue := render_queue s;
            splitter := SGet; renderer := RLoop n_frames; video := video s |}
  | _, _ => Raise RuntimeError
  end.

(** One iteration of the loop of line 114 at batch start [n]. *)
Definition main_batch (e : env) (n : nat) (rest : list nat) (s : state)
  : state :=
  match batch_step e (gen s) n with
  | (g', Raise x) =>
      {| main := MRaised x; gen := g'; calls := calls s;
         split_queue := split_queue s; render_queue := render_queue s;
         splitter := splitter s; renderer := renderer s; video := video s |}
  | (g', Ok (inp, outputs)) =>
      let s1 :=
        {| main := MLoop rest; gen := g'; calls := calls s ++ [inp];
           split_queue := split_queue s ++ [outputs];
           render_queue := render_queue s;
           splitter := splitter s; renderer := renderer s;
           video := video s |} in
      if n =? 0 then
        match start_threads (length (a_latents (e_args e))) s1 with
        | Ok s2 => s2
        | Raise x => set_main (MRaised x) s1
        end
      else s1
  end.

(** A step of the main thread; [None] while a [join] blocks. *)
Definition main_step (e : env) (s : state) : option state :=
  match main s with
  | MLoop (n :: rest) => Some (main_batch e n rest s)
  | MLoop [] => Some (set_main MJoinSplitter s)
  | MJoinSplitter =>
      match splitter s with
      | SNotStarted => Some (set_main (MRaised RuntimeError) s)
      | SReturned => Some (set_main MJoinRenderer s)
      | _ => None
      end
  | MJoinRenderer =>
      match renderer s with
      | RNotStarted => Some (set_main (MRaised RuntimeError) s)
      | RDone | RRaised _ => Some (set_main MReturned s)
      | RLoop _ => None
      end
  | MReturned | MRaised _ => None
  end.

(** A step of [split_batches] that does not time out. *)
Definition split_step (s : state) : option state :=
  match splitter s with
  | SGet =>
      match split_queue s with
      | imgs :: q =>
          Some {| main := main s; gen := gen s; calls := calls s;
                  split_queue := q; render_queue := render_queue s;
                  splitter := SPut (split_frames imgs);
                  renderer := renderer s; video := video s |}
      | [] => None
      end
  | SPut (img :: pending) =>
      Some {| main := main s; gen := gen s; calls := calls s;
              split_queue := split_queue s;
              render_queue := render_queue s ++ [img];
              splitter := SPut pending;
              renderer := renderer s; video := video s |}
  | SPut [] =>
      Some {| main := main s; gen := gen s; calls := calls s;
              split_queue := split_queue s; render_queue := render_queue s;
              splitter := SGet; renderer := renderer s; video := video s |}
  | SNotStarted | SReturned => None
  end.

(** The [get] of line 35 times out: [queue.Empty] is caught, the worker
    returns. *)
Definition split_timeout (s : state) : option state :=
  match splitter s, split_queue s with
  | SGet, [] =>
      Some {| main := main s; gen := gen s; calls := calls s;
              split_queue := split_queue s; render_queue := render_queue s;
              splitter := SReturned; renderer := renderer s;
              video := video s |}
  | _, _ => None
  end.

Definition set_renderer (r : renderer_status) (q : list frame) (v : process)
    (s : state) : state :=
  {| main := main s; gen := gen s; calls := calls s;
     split_queue := split_queue s; render_queue := q;
     splitter := splitter s; renderer := r; video := v |}.

(** A step of [make_video] that does not time out: one iteration of the
    loop, or lines 87-88 after it. *)
Definition sink_step (e : env) (s : state) : option state :=
  match renderer s with
  | RLoop (S k) =>
      match render_queue s with
      | img :: q =>
          match make_video_frame (enc_s (e_encoder e)) img with
          | Ok b =>
              Some (set_renderer (RLoop k) q
                      {| stdin_writes := stdin_writes (video s) ++ [b];
                         stdin_closed := stdin_closed (video s);
                         waited := waited (video s) |} s)
          | Raise x => Some (set_renderer (RRaised x) q (video s) s)
          end
      | [] => None
      end
  | RLoop O =>
      Some (set_renderer RDone (render_queue s)
              {| stdin_writes := stdin_writes (video s);
                 stdin_closed := true; waited := true |} s)
  | RNotStarted | RDone | RRaised _ => None
  end.

(** The [get] of line 76 times out: [queue.Empty] ends the worker. *)
Definition sink_timeout (s : state) : option state :=
  match renderer s, render_queue s with
  | RLoop (S _), [] => Some (set_renderer (RRaised Empty) [] (video s) s)
  | _, _ => None
  end.

Inductive label : Type :=
| LMain | LSplit | LSplitTimeout | LSink | LSinkTimeout.

Definition step (e : env) (l : label) (s : state) : option state :=
  match l with
  | LMain => main_step e s
  | LSplit => split_step s
  | LSplitTimeout => split_timeout s
  | LSink => sink_step e s
  | LSinkTimeout => sink_timeout s
  end.

(** The state in which the loop of line 114 is entered. *)
Definition init_state (e : env) : state :=
  let a := e_args e in
  {| main := match range (length (a_latents a)) (a_batch_size a) with
             | Ok starts => MLoop starts
             | Raise x => MRaised x
             end;
     gen := a_generator a; calls := []; split_queue := []; render_queue := [];
     splitter := SNotStarted; renderer := RNotStarted;
     video := {| stdin_writes := []; stdin_closed := false; waited := false |}
  |}.

(** Running a schedule; [None] when a step of it is not enabled. *)
Fixpoint run (e : env) (sched : list label) (s : state) : option state :=
  match sched with
  | [] => Some s
  | l :: rest =>
      match step e l s with
      | Some s' => run e rest s'
      | None => None
      end
  end.




Definition worker (l : label) : bool :=
  match l with
  | LMain => false
  | _ => true
  end.

(** States reached from [s] by steps whose labels satisfy [allow]. *)
Inductive reach (e : env) (allow : label -> state -> bool) (s : state)
  : state -> Prop :=
| reach_refl : reach e allow s s
| reach_step l s1 s2 :
    reach e allow s s1 -> allow l s1 = true -> step e l s1 = Some s2 ->
    reach e allow s s2.

Definition any_step (l : label) (s : state) : bool := true.


(** *** Notions used to state the properties *)

(** One image through lines 38-41. *)
Definition format_image (img : image) : frame :=
  map (map (map astype_uint8)) (permute_hwc 0%Q (map (map (map scale)) img)).

(** The same call with another [out_size]. *)
Definition set_out_size (z : Z) (a : args) : args :=
  {| a_generator := a_generator a; a_latents := a_latents a;
     a_noise := a_noise a; a_offset := a_offset a;
     a_duration := a_duration a; a_batch_size := a_batch_size a;
     a_out_size := z; a_output_file := a_output_file a;
     a_audio_file := a_audio_file a; a_truncation := a_truncation a;
     a_bends := a_bends a; a_rewrites := a_rewrites a;
     a_randomize_noise := a_randomize_noise a |}.

(** The first value of the dict is a list. *)
Definition head_is_list (rw : list (string * rewrite_obj)) : Prop :=
  exists k items rest, rw = (k, OList items) :: rest.

(** ceil(n / b). *)
Definition ceil_div (n b : nat) : nat := (n + b - 1) / b.

(** The frames the splitter still has to put, and the batch starts the
    main loop still has to run. *)
Definition pending (s : state) : list frame :=
  match splitter s with
  | SPut p => p
  | _ => []
  end.

Definition rest_of (s : state) : list nat :=
  match main s with
  | MLoop r => r
  | _ => []
  end.

(** The frames a queued batch will give. *)
Definition batch_frames (q : list raw_batch) : list frame :=
  concat (map split_frames q).

(** The steps the two workers can still take from [s]: each queued batch is
    dequeued and acknowledged, each of its frames is put and then written,
    and each worker ends once. *)
Definition splitter_measure (t : splitter_status) : nat :=
  match t with
  | SNotStarted | SGet => 1
  | SPut p => 2 + 2 * length p
  | SReturned => 0
  end.

Definition renderer_measure (t : renderer_status) : nat :=
  match t with
  | RNotStarted | RLoop _ => 1
  | RDone | RRaised _ => 0
  end.

Definition queue_measure (q : list raw_batch) : nat :=
  list_sum (map (fun imgs => 2 + 2 * length (split_frames imgs)) q).

Definition worker_measure (s : state) : nat :=
  splitter_measure (splitter s) + renderer_measure (renderer s)
  + queue_measure (split_queue s) + length (render_queue s).

(** The truncation handed to the forward pass at batch start [n]. *)
Definition truncation_at (e : env) (n : nat) : truncation_value :=
  match e_truncation e with
  | TTensor t => TTensor (slice n (n + a_batch_size (e_args e)) t)
  | t => t
  end.

Definition input_at (e : env) (n : nat) : gen_input :=
  batch_input e n (truncation_at e n).

Definition frames_at (e : env) (g : generator_state) (n : nat) : list frame :=
  split_frames (generator g (input_at e n)).

Definition future_measure (e : env) (g : generator_state) (r : list nat)
  : nat :=
  list_sum (map (fun n => 3 + 2 * length (frames_at e g n)) r).

Definition main_measure (e : env) (s : state) : nat :=
  match main s with
  | MLoop r => 3 + future_measure e (gen s) r
  | MJoinSplitter => 2
  | MJoinRenderer => 1
  | MReturned | MRaised _ => 0
  end.

Definition measure (e : env) (s : state) : nat :=
  main_measure e s + worker_measure s.

(** What the sink writes for a frame. *)
Definition sink_bytes (img : frame) : bytes := tobytes (sink_image img).



(** The states of a run that has no batch to process. *)
Definition idle (s : state) : Prop :=
  splitter s = SNotStarted /\ renderer s = RNotStarted /\ calls s = [] /\
  split_queue s = [] /\ render_queue s = [] /\
  video s = {| stdin_writes := []; stdin_closed := false; waited := false |} /\
  (main s = MLoop [] \/ main s = MJoinSplitter \/ exists x, main s = MRaised x).

(** ** The sink on one frame *)

Lemma output_size_cases (z : Z) :
  output_size z = "1024x1024"%string \/ output_size z = "512x512"%string \/
  output_size z = "1920x1080"%string.
Proof.
  unfold output_size.
  destruct (Z.eqb z 1024); [now left|].
  destruct (Z.eqb z 512); [right; now left | right; now right].
Qed.

(** Evaluates the parsing of a literal size string in the goal. *)
Ltac parse_size :=
  repeat match goal with
    | |- context [index (split ?c ?s) ?i] =>
        let t := eval vm_compute in (index (split c s) i) in
        change (index (split c s) i) with t; cbn [bind]
    | |- context [int ?s] =>
        let t := eval vm_compute in (int s) in
        change (int s) with t; cbn [bind]
    end.

Lemma size_check_tuple (z : Z) (img : frame) :
  exists c m, size_check (output_size z) img = Ok (OTuple [OBool c; OStr m]).
Proof.
  unfold size_check.
  destruct (output_size_cases z) as [-> | [-> | ->]]; parse_size;
    match goal with
    | |- context [shape1 img =? ?h] => destruct (shape1 img =? h)
    end; parse_size; cbn [bind]; eauto.
Qed.

(** The condition inside that tuple compares the width of the frame with
    the height of the size string and the channel count with its width: on
    a 1024 x 1024 frame under 1024x1024 it is false. *)
Example size_check_on_matching_frame :
  size_check "1024x1024" (repeat (repeat [0; 0; 0]%Z 1024) 1024) =
  Ok (OTuple
        [OBool false;
         OStr "generator's output image size does not match specified output size"]).
Proof. vm_compute. reflexivity. Qed.

(** Line 81 asserts a two-element tuple, which is true whatever it holds:
    the sink writes every frame it dequeues. *)
Lemma make_video_frame_writes (z : Z) (img : frame) :
  make_video_frame (output_size z) img = Ok (tobytes (sink_image img)).
Proof.
  unfold make_video_frame.
  destruct (size_check_tuple z (sink_image img)) as (c & m & ->).
  reflexivity.
Qed.

(** ** Lists *)

Lemma nth_map_seq {A} (f : nat -> A) (n i : nat) (d : A) :
  i < n -> nth i (map f (seq 0 n)) d = f i.
Proof.
  intros Hi.
  rewrite (nth_indep _ d (f 0)) by (rewrite length_map, length_seq; exact Hi).
  rewrite map_nth, seq_nth by exact Hi. reflexivity.
Qed.

Lemma nth_map_in {A B} (f : A -> B) (l : list A) (i : nat) (da : A) (db : B) :
  i < length l -> nth i (map f l) db = f (nth i l da).
Proof.
  intros Hi.
  rewrite (nth_indep _ db (f da)) by (rewrite length_map; exact Hi).
  apply map_nth.
Qed.

Lemma skipn_nth_cons {A} (l : list A) (j : nat) (d : A) :
  j < length l -> skipn j l = nth j l d :: skipn (S j) l.
Proof.
  revert j; induction l as [|x l IH]; intros j Hj; simpl in Hj; [lia|].
  destruct j; [reflexivity|].
  simpl. apply IH. lia.
Qed.

Lemma firstn_snoc {A} (l : list A) (j : nat) (d : A) :
  j < length l -> firstn (S j) l = firstn j l ++ [nth j l d].
Proof.
  revert j; induction l as [|x l IH]; intros j Hj; simpl in Hj; [lia|].
  destruct j; [reflexivity|].
  simpl. f_equal. apply IH. lia.
Qed.

Lemma run_app e (l1 l2 : list label) (s : state) :
  run e (l1 ++ l2) s =
  match run e l1 s with
  | Some s' => run e l2 s'
  | None => None
  end.
Proof.
  revert s; induction l1 as [|l l1 IH]; intros s; simpl; [reflexivity|].
  destruct (step e l s); [apply IH | reflexivity].
Qed.

(** ** The frame formatter *)

Lemma rect_nth {A} (d1 d2 : nat) (img : list (list (list A))) (c : nat) :
  rect d1 d2 img -> c < length img ->
  length (nth c img []) = d1 /\
  forall h, h < d1 -> length (nth h (nth c img []) []) = d2.
Proof.
  intros Hr Hc.
  unfold rect in Hr. rewrite Forall_forall in Hr.
  destruct (Hr (nth c img [])) as [H1 H2]; [apply nth_In; exact Hc|].
  split; [exact H1|].
  intros h Hh. rewrite Forall_forall in H2.
  apply H2, nth_In. lia.
Qed.

Lemma rect_shape {A} (d1 d2 : nat) (img : list (list (list A))) :
  rect d1 d2 img -> 0 < length img -> 0 < d1 ->
  shape1 img = d1 /\ shape2 img = d2.
Proof.
  intros Hr Hc Hd.
  destruct (rect_nth d1 d2 img 0 Hr Hc) as [H1 H2].
  unfold shape1, shape2.
  destruct img as [|p img]; [simpl in Hc; lia|].
  simpl in *. split; [exact H1|].
  specialize (H2 0 Hd).
  destruct p as [|r p]; [simpl in H1; lia|]. exact H2.
Qed.

(** The permuted view reads out[h][w][c] at in[c][h][w]. *)
Lemma permute_hwc_nth {A} (d : A) (d1 d2 : nat) (img : list (list (list A)))
    (h w c : nat) :
  rect d1 d2 img -> h < d1 -> w < d2 -> c < length img ->
  nth c (nth w (nth h (permute_hwc d img) []) []) d =
  nth w (nth h (nth c img []) []) d.
Proof.
  intros Hr Hh Hw Hc.
  destruct (rect_shape d1 d2 img Hr) as [S1 S2]; [lia | lia |].
  unfold permute_hwc. rewrite S1, S2.
  rewrite nth_map_seq by exact Hh.
  rewrite nth_map_seq by exact Hw.
  rewrite (nth_map_in _ img c [] d) by exact Hc.
  reflexivity.
Qed.

Lemma permute_hwc_shape {A} (d : A) (d1 d2 : nat) (img : list (list (list A))) :
  rect d1 d2 img -> 0 < length img -> 0 < d1 ->
  length (permute_hwc d img) = d1 /\
  rect d2 (length img) (permute_hwc d img).
Proof.
  intros Hr Hc Hd.
  destruct (rect_shape d1 d2 img Hr Hc Hd) as [S1 S2].
  unfold permute_hwc. rewrite S1, S2.
  split; [now rewrite length_map, length_seq|].
  apply Forall_forall. intros row Hin.
  apply in_map_iff in Hin. destruct Hin as (h & <- & _).
  split; [now rewrite length_map, length_seq|].
  apply Forall_forall. intros px Hin.
  apply in_map_iff in Hin. destruct Hin as (w & <- & _).
  now rewrite length_map.
Qed.

Lemma rect_map {A B} (f : A -> B) (d1 d2 : nat) (img : list (list (list A))) :
  rect d1 d2 img -> rect d1 d2 (map (map (map f)) img).
Proof.
  unfold rect. intros Hr.
  apply Forall_forall. intros plane Hin.
  apply in_map_iff in Hin. destruct Hin as (p0 & <- & Hin).
  rewrite Forall_forall in Hr. destruct (Hr p0 Hin) as [H1 H2].
  split; [now rewrite length_map|].
  apply Forall_forall. intros row Hrow.
  apply in_map_iff in Hrow. destruct Hrow as (r0 & <- & Hr0).
  rewrite Forall_forall in H2. rewrite length_map. now apply H2.
Qed.

Lemma map3_nth {A B} (f : A -> B) (da : A) (db : B) (d1 d2 : nat)
    (img : list (list (list A))) (i j k : nat) :
  rect d1 d2 img -> i < length img -> j < d1 -> k < d2 ->
  nth k (nth j (nth i (map (map (map f)) img) []) []) db =
  f (nth k (nth j (nth i img []) []) da).
Proof.
  intros Hr Hi Hj Hk.
  destruct (rect_nth d1 d2 img i Hr Hi) as [H1 H2].
  rewrite (nth_map_in _ img i [] []) by exact Hi.
  rewrite (nth_map_in _ (nth i img []) j [] []) by lia.
  rewrite (nth_map_in _ (nth j (nth i img []) []) k da db)
    by (rewrite H2; lia).
  reflexivity.
Qed.

Lemma split_frames_map (imgs : raw_batch) :
  split_frames imgs = map format_image imgs.
Proof.
  unfold split_frames, format_image. now rewrite !map_map.
Qed.

Lemma format_image_pixel (d1 d2 : nat) (img : image) (h w c : nat) :
  rect d1 d2 img -> h < d1 -> w < d2 -> c < length img ->
  pixel_out (format_image img) h w c = astype_uint8 (scale (pixel_in img c h w)).
Proof.
  intros Hr Hh Hw Hc.
  pose proof (rect_map scale d1 d2 img Hr) as Hs.
  assert (Hl : length (map (map (map scale)) img) = length img)
    by now rewrite length_map.
  destruct (permute_hwc_shape 0%Q d1 d2 _ Hs) as [P1 P2]; [lia | lia |].
  unfold pixel_out, pixel_in, format_image.
  rewrite (map3_nth astype_uint8 0%Q 0%Z d2 (length img) _ h w c);
    [ | now rewrite <- Hl | lia | exact Hw | exact Hc ].
  rewrite (permute_hwc_nth 0%Q d1 d2) by (try assumption; lia).
  rewrite (map3_nth scale 0%Q 0%Q d1 d2 img c h w) by assumption.
  reflexivity.
Qed.

Lemma format_image_shape (d1 d2 : nat) (img : image) :
  rect d1 d2 img -> 0 < length img -> 0 < d1 ->
  shape0 (format_image img) = d1 /\ rect d2 (length img) (format_image img).
Proof.
  intros Hr Hc Hd.
  pose proof (rect_map scale d1 d2 img Hr) as Hs.
  destruct (permute_hwc_shape 0%Q d1 d2 _ Hs) as [P1 P2];
    [now rewrite length_map | exact Hd |].
  rewrite length_map in P2.
  unfold format_image, shape0. split; [now rewrite length_map|].
  now apply rect_map.
Qed.

(** The splitter puts the frames of a batch one at a time. *)
Lemma split_steps e (s : state) (imgs : raw_batch) (q : list raw_batch)
    (j : nat) :
  splitter s = SGet -> split_queue s = imgs :: q -> j <= length imgs ->
  exists s', run e (repeat LSplit (S j)) s = Some s' /\
             splitter s' = SPut (skipn j (split_frames imgs)) /\
             split_queue s' = q /\
             render_queue s' = render_queue s ++ firstn j (split_frames imgs).
Proof.
  intros Hs Hq. induction j as [|j IH]; intros Hj.
  - simpl. unfold split_step. rewrite Hs, Hq.
    eexists; split; [reflexivity|]. simpl. now rewrite app_nil_r.
  - destruct IH as (s1 & Hrun & Hsp & Hsq & Hrq); [lia|].
    change (repeat LSplit (S (S j))) with (LSplit :: repeat LSplit (S j)).
    rewrite repeat_cons, run_app, Hrun.
    assert (Hlen : j < length (split_frames imgs))
      by (rewrite split_frames_map, length_map; lia).
    rewrite (skipn_nth_cons (split_frames imgs) j []) in Hsp by exact Hlen.
    cbn [run step]. unfold split_step. rewrite Hsp.
    eexists; split; [reflexivity|]. cbn [splitter split_queue render_queue].
    repeat split; [exact Hsq|].
    rewrite Hrq, (firstn_snoc (split_frames imgs) j []) by exact Hlen.
    now rewrite app_assoc.
Qed.

Lemma Qle_bool_false (x y : Q) : Qle_bool x y = false -> (y < x)%Q.
Proof.
  intros H. apply Qnot_le_lt. intros Hle.
  apply Qle_bool_iff in Hle. congruence.
Qed.

Lemma clamp_range (x : Q) : (-1 <= clamp (-1) 1 x <= 1)%Q.
Proof.
  unfold clamp.
  destruct (Qle_bool x (-1)) eqn:H1; [split; discriminate|].
  destruct (Qle_bool 1 x) eqn:H2; [split; discriminate|].
  apply Qle_bool_false in H1, H2.
  split; apply Qlt_le_weak; assumption.
Qed.

(** A value inside [-1, 1] is left as it is. *)
Lemma clamp_inside (x : Q) : (-1 < x)%Q -> (x < 1)%Q -> clamp (-1) 1 x = x.
Proof.
  intros H1 H2. unfold clamp.
  destruct (Qle_bool x (-1)) eqn:E1.
  - apply Qle_bool_iff in E1. exfalso. apply (Qlt_not_le _ _ H1 E1).
  - destruct (Qle_bool 1 x) eqn:E2; [|reflexivity].
    apply Qle_bool_iff in E2. exfalso. apply (Qlt_not_le _ _ H2 E2).
Qed.

(** A value at or below -1 becomes -1, one at or above 1 becomes 1. *)
Lemma clamp_below (x : Q) : (x <= -1)%Q -> clamp (-1) 1 x = (-1)%Q.
Proof.
  intros H. unfold clamp.
  apply Qle_bool_iff in H. rewrite H. reflexivity.
Qed.

Lemma clamp_above (x : Q) : (1 <= x)%Q -> clamp (-1) 1 x = 1%Q.
Proof.
  intros H. unfold clamp.
  destruct (Qle_bool x (-1)) eqn:E1.
  - apply Qle_bool_iff in E1. exfalso.
    assert (C : (1 <= -1)%Q) by (apply (Qle_trans _ x); assumption).
    apply C. reflexivity.
  - apply Qle_bool_iff in H. rewrite H. reflexivity.
Qed.

Lemma astype_uint8_floor (q : Q) :
  (0 <= q)%Q -> (q <= 255)%Q ->
  astype_uint8 q = Qfloor q /\ (0 <= astype_uint8 q <= 255)%Z.
Proof.
  intros H0 H255.
  assert (F0 : (0 <= Qfloor q)%Z).
  { change 0%Z with (Qfloor 0). apply Qfloor_resp_le. exact H0. }
  assert (F255 : (Qfloor q <= 255)%Z).
  { change 255%Z with (Qfloor 255). apply Qfloor_resp_le. exact H255. }
  assert (E : Z.quot (Qnum q) (Zpos (Qden q)) = Qfloor q).
  { destruct q as [n d]. unfold Qfloor. cbn [Qnum Qden].
    apply Z.quot_div_nonneg; [|lia].
    unfold Qle in H0. cbn in H0. lia. }
  unfold astype_uint8. rewrite E.
  rewrite Z.mod_small by lia. split; [reflexivity | lia].
Qed.

Section Float32.

(** Rounding to float32 is monotone and leaves 0, 2 and 255 as they are. *)
Hypothesis rnd_mono : forall x y : Q, (x <= y)%Q -> (rnd x <= rnd y)%Q.
Hypothesis rnd_0 : (rnd 0 == 0)%Q.
Hypothesis rnd_2 : (rnd 2 == 2)%Q.
Hypothesis rnd_255 : (rnd 255 == 255)%Q.

Lemma scale_range (x : Q) : (0 <= scale x)%Q /\ (scale x <= 255)%Q.
Proof.
  unfold scale.
  destruct (clamp_range x) as [L U].
  set (c := clamp (-1) 1 x) in *.
  assert (A0 : (0 <= rnd (c + 1))%Q).
  { rewrite <- rnd_0. apply rnd_mono.
    setoid_replace 0%Q with (-1 + 1)%Q by reflexivity.
    apply Qplus_le_compat; [exact L | apply Qle_refl]. }
  assert (A2 : (rnd (c + 1) <= 2)%Q).
  { rewrite <- rnd_2. apply rnd_mono.
    setoid_replace 2%Q with (1 + 1)%Q by reflexivity.
    apply Qplus_le_compat; [exact U | apply Qle_refl]. }
  split.
  - rewrite <- rnd_0. apply rnd_mono.
    apply Qmult_le_0_compat; [exact A0 | discriminate].
  - rewrite <- rnd_255. apply rnd_mono.
    setoid_replace 255%Q with (2 * (255 # 2))%Q by reflexivity.
    apply Qmult_le_compat_r; [exact A2 | discriminate].
Qed.

Lemma rnd_eq (x y : Q) : (x == y)%Q -> (rnd x == rnd y)%Q.
Proof.
  intros E. apply Qle_antisym; apply rnd_mono; rewrite E; apply Qle_refl.
Qed.

(** The two ends of the scale: -1 goes to 0 and 1 to 255. *)
Lemma scale_low : Qfloor (rnd (rnd (-1 + 1) * (255 # 2))) = 0%Z.
Proof.
  assert (E : (rnd (rnd (-1 + 1) * (255 # 2)) == 0)%Q).
  { apply (Qeq_trans _ (rnd 0)); [apply rnd_eq | exact rnd_0].
    rewrite (rnd_eq (-1 + 1) 0) by reflexivity.
    rewrite rnd_0. reflexivity. }
  rewrite E. reflexivity.
Qed.

Lemma scale_high : Qfloor (rnd (rnd (1 + 1) * (255 # 2))) = 255%Z.
Proof.
  assert (E : (rnd (rnd (1 + 1) * (255 # 2)) == 255)%Q).
  { apply (Qeq_trans _ (rnd 255)); [apply rnd_eq | exact rnd_255].
    rewrite (rnd_eq (1 + 1) 2) by reflexivity.
    rewrite rnd_2. reflexivity. }
  rewrite E. reflexivity.
Qed.

(** C7.  A raw batch of B images, each C x H x W, gives B frames in batch
    order; frame b is H x W x C and its pixel [h][w][c] is the value at
    [c][h][w] of image b, clamped to [-1, 1] (a value at or below -1 becomes
    -1, one at or above 1 becomes 1, one in between is kept), mapped by
    (x + 1) * 127.5 and cast to uint8, which is its floor and lies in
    0..255; so a value at or below -1 gives the byte 0 and one at or above 1
    the byte 255.  The splitter that has dequeued the batch puts these
    frames on the render queue one by one. *)
Theorem split_batches_formats_each_frame (imgs : raw_batch) (C H W : nat) :
  0 < C -> 0 < H ->
  Forall (fun img => length img = C /\ rect H W img) imgs ->
  length (split_frames imgs) = length imgs /\
  (forall b, b < length imgs ->
     let fr := nth b (split_frames imgs) [] in
     let img := nth b imgs [] in
     shape0 fr = H /\ rect W C fr /\
     forall h w c, h < H -> w < W -> c < C ->
       let x := pixel_in img c h w in
       pixel_out fr h w c = astype_uint8 (scale x) /\
       scale x = rnd (rnd (clamp (-1) 1 x + 1) * (255 # 2)) /\
       (-1 <= clamp (-1) 1 x <= 1)%Q /\
       astype_uint8 (scale x) = Qfloor (scale x) /\
       (0 <= pixel_out fr h w c <= 255)%Z /\
       ((x <= -1)%Q -> clamp (-1) 1 x = (-1)%Q /\ pixel_out fr h w c = 0%Z) /\
       ((1 <= x)%Q -> clamp (-1) 1 x = 1%Q /\ pixel_out fr h w c = 255%Z) /\
       ((-1 < x)%Q -> (x < 1)%Q -> clamp (-1) 1 x = x)) /\
  (forall e s q j,
     splitter s = SGet -> split_queue s = imgs :: q -> j <= length imgs ->
     exists s', run e (repeat LSplit (S j)) s = Some s' /\
                split_queue s' = q /\
                render_queue s' = render_queue s ++ firstn j (split_frames imgs)).
Proof.
  intros HC HH Hall.
  split; [now rewrite split_frames_map, length_map|].
  split.
  - intros b Hb fr img.
    rewrite Forall_forall in Hall.
    destruct (Hall img) as [Hlen Hrect]; [apply nth_In; exact Hb|].
    assert (Hfr : fr = format_image img).
    { unfold fr, img. rewrite split_frames_map.
      apply (nth_map_in format_image imgs b [] []). exact Hb. }
    destruct (format_image_shape H W img Hrect) as [S0 S1]; [lia | lia |].
    rewrite Hlen in S1. rewrite Hfr.
    split; [exact S0|]. split; [exact S1|].
    intros h w c Hh Hw Hc x.
    assert (Hpx : pixel_out (format_image img) h w c = astype_uint8 (scale x)).
    { apply (format_image_pixel H W); try assumption. lia. }
    destruct (scale_range x) as [R0 R255].
    destruct (astype_uint8_floor (scale x) R0 R255) as [Efl Ern].
    split; [exact Hpx|]. split; [reflexivity|].
    split; [apply clamp_range|]. split; [exact Efl|].
    split; [rewrite Hpx; exact Ern|].
    split; [|split].
    + intros Hx. split; [apply clamp_below; exact Hx|].
      rewrite Hpx, Efl. unfold scale. rewrite (clamp_below x Hx).
      apply scale_low.
    + intros Hx. split; [apply clamp_above; exact Hx|].
      rewrite Hpx, Efl. unfold scale. rewrite (clamp_above x Hx).
      apply scale_high.
    + apply clamp_inside.
  - intros e s q j Hs Hq Hj.
    destruct (split_steps e s imgs q j Hs Hq Hj) as (s' & R & _ & Q1 & Q2).
    exists s'. auto.
Qed.

End Float32.

(** ** The crop of the sink *)

Lemma slice_neg_length {A} (a b : nat) (l : list A) :
  length (slice_neg a b l) = length l - b - a.
Proof.
  unfold slice_neg. rewrite length_skipn, length_firstn. lia.
Qed.

Lemma slice_neg_nth {A} (a b : nat) (l : list A) (j : nat) (d : A) :
  j < length l - b - a -> nth j (slice_neg a b l) d = nth (a + j) l d.
Proof.
  intros Hj. unfold slice_neg.
  rewrite nth_skipn, nth_firstn.
  destruct (Nat.ltb_spec (a + j) (length l - b)); [reflexivity | lia].
Qed.

Lemma sink_image_wide (img : frame) :
  shape1 img = 2048 -> sink_image img = pil_resize 1920 1080 (crop_columns img).
Proof.
  intros H. unfold sink_image. rewrite H. reflexivity.
Qed.

Lemma sink_image_other (img : frame) :
  shape1 img <> 2048 -> sink_image img = img.
Proof.
  intros H. unfold sink_image.
  destruct (Nat.eqb_spec (shape1 img) 2048); [contradiction | reflexivity].
Qed.

(** Line 77 tests the width alone: the rows of a frame 2048 pixels wide
    lose their first and last 112 pixels, whatever the declared size is. *)
Lemma crop_columns_rows (img : frame) :
  length (crop_columns img) = length img /\
  (forall h row, nth_error img h = Some row -> length row = 2048 ->
     nth_error (crop_columns img) h = Some (slice_neg 112 112 row) /\
     length (slice_neg 112 112 row) = 2048 - 112 - 112 /\
     forall j d, j < 2048 - 112 - 112 ->
       nth j (slice_neg 112 112 row) d = nth (112 + j) row d).
Proof.
  split; [unfold crop_columns; apply length_map|].
  intros h row Hrow Hlen. split; [|split].
  - unfold crop_columns. rewrite nth_error_map, Hrow. reflexivity.
  - rewrite slice_neg_length, Hlen. reflexivity.
  - intros j d Hj. apply slice_neg_nth. rewrite Hlen. exact Hj.
Qed.

(** Under each of the three size strings the sink crops, resizes and writes
    a frame 2048 pixels wide: the check of line 81 stops nothing. *)
Lemma wide_frame_is_written (z : Z) (img : frame) :
  shape1 img = 2048 ->
  make_video_frame (output_size z) img =
    Ok (tobytes (pil_resize 1920 1080 (crop_columns img))).
Proof.
  intros Hw. rewrite make_video_frame_writes, (sink_image_wide img Hw).
  reflexivity.
Qed.

(** ** The setup *)

Lemma output_size_other (z : Z) :
  z <> 1024%Z -> z <> 512%Z -> output_size z = "1920x1080"%string.
Proof.
  intros H1 H2. unfold output_size.
  destruct (Z.eqb_spec z 1024); [contradiction|].
  destruct (Z.eqb_spec z 512); [contradiction | reflexivity].
Qed.

Lemma start_encoder_size (a : args) (enc : encoder_cfg) :
  start_encoder a = Ok enc -> enc_s enc = output_size (a_out_size a).
Proof.
  unfold start_encoder. destruct (framerate a); cbn [bind]; [|discriminate].
  intros [= <-]. reflexivity.
Qed.

Lemma render_setup_encoder gl (a : args) (e : env) :
  render_setup gl a = Ok e -> start_encoder a = Ok (e_encoder e) /\ e_args e = a.
Proof.
  unfold render_setup.
  destruct (start_encoder a) as [enc|]; cbn [bind]; [|discriminate].
  destruct (prepare_rewrites _ _ _ _); cbn [bind]; [|discriminate].
  destruct (prepare_truncation _); cbn [bind]; [|discriminate].
  intros [= <-]. split; reflexivity.
Qed.

(** The outcome of the setup does not depend on [out_size]. *)
Lemma render_setup_out_size gl (z : Z) (a : args) :
  error_of (render_setup gl (set_out_size z a)) = error_of (render_setup gl a).
Proof.
  unfold render_setup, start_encoder, framerate, set_out_size.
  cbn [a_duration a_latents a_audio_file a_offset a_generator a_rewrites
       a_truncation a_out_size a_output_file].
  destruct (Qeq_bool (a_duration a) 0); cbn [bind]; [reflexivity|].
  destruct (prepare_rewrites _ _ _ _); cbn [bind]; [|reflexivity].
  destruct (prepare_truncation _); reflexivity.
Qed.

(** C9.  An [out_size] other than 1024 and 512 selects the size string
    1920x1080: the encoder is configured with it, and whether the setup
    succeeds or raises is the same as for any other [out_size]. *)
Theorem output_size_falls_back_to_1920x1080 gl (a : args) :
  a_out_size a <> 1024%Z -> a_out_size a <> 512%Z ->
  output_size (a_out_size a) = "1920x1080"%string /\
  (forall enc, start_encoder a = Ok enc -> enc_s enc = "1920x1080"%string) /\
  (Qeq_bool (a_duration a) 0 = false ->
   exists enc, start_encoder a = Ok enc /\ enc_s enc = "1920x1080"%string) /\
  (forall e, render_setup gl a = Ok e ->
             enc_s (e_encoder e) = "1920x1080"%string) /\
  (forall z, error_of (render_setup gl a) =
             error_of (render_setup gl (set_out_size z a))).
Proof.
  intros H1 H2.
  pose proof (output_size_other _ H1 H2) as Hs.
  split; [exact Hs|]. split; [|split; [|split]].
  - intros enc He. rewrite (start_encoder_size a enc He). exact Hs.
  - intros Hd. unfold start_encoder, framerate. rewrite Hd. cbn [bind].
    eexists; split; [reflexivity|]. exact Hs.
  - intros e He. destruct (render_setup_encoder gl a e He) as [Henc _].
    rewrite (start_encoder_size a _ Henc). exact Hs.
  - intros z. symmetry. apply render_setup_out_size.
Qed.

(** ** Truncation *)

Lemma render_setup_truncation gl (a : args) (e : env) :
  render_setup gl a = Ok e ->
  e_truncation e = a_truncation a /\
  ((exists x, a_truncation a = TFloat x) \/ (exists t, a_truncation a = TTensor t)).
Proof.
  unfold render_setup.
  destruct (start_encoder a) as [enc|]; cbn [bind]; [|discriminate].
  destruct (prepare_rewrites _ _ _ _); cbn [bind]; [|discriminate].
  destruct (a_truncation a) as [x|z|t]; cbn [prepare_truncation bind];
    try discriminate; intros [= <-]; cbn [e_truncation]; eauto.
Qed.

(** An integer truncation, such as the default 1, stops the setup. *)
Lemma render_setup_int_truncation gl (a : args) (z : Z) :
  a_truncation a = TInt z -> is_ok (render_setup gl a) = false.
Proof.
  intros Ht. destruct (render_setup gl a) as [e|] eqn:E; [|reflexivity].
  destruct (render_setup_truncation gl a e E) as [_ [[x Hx] | [t Hx]]];
    congruence.
Qed.

Lemma truncation_batch_float (x : Q) (n b : nat) :
  truncation_batch (TFloat x) n b = Ok (TFloat x).
Proof. reflexivity. Qed.

Lemma truncation_batch_tensor (t : tensor) (n b : nat) :
  truncation_batch (TTensor t) n b = Ok (TTensor (slice n (n + b) t)).
Proof. reflexivity. Qed.

(** ** Rewrites *)

Lemma setitem_head_is_list (rw : list (string * rewrite_obj)) k items :
  head_is_list rw -> head_is_list (setitem rw k (OList items)).
Proof.
  intros (k0 & it0 & rest & ->). cbn [setitem].
  destruct (String.eqb k k0); unfold head_is_list; eauto.
Qed.

Lemma prepare_rewrites_keeps_head g items rw ow rw' ow' :
  head_is_list rw ->
  prepare_rewrites g items rw ow = Ok (rw', ow') -> head_is_list rw'.
Proof.
  revert rw ow. induction items as [|[param v] items IH]; intros rw ow Hh.
  - cbn. intros [= <- _]. exact Hh.
  - cbn [prepare_rewrites].
    destruct (unpack2 v) as [tm|]; cbn [bind]; [|discriminate].
    destruct (pin (snd tm)) as [m|]; cbn [bind]; [|discriminate].
    destruct (getitem _ _) as [p|]; cbn [bind]; [|discriminate].
    destruct (tensor_copy p) as [w|]; cbn [bind]; [|discriminate].
    destruct ow as [d|]; [|discriminate].
    apply IH. apply setitem_head_is_list. exact Hh.
Qed.

(** Line 104 leaves a list where line 135 calls a function. *)
Lemma prepare_rewrites_head g items ow rw' ow' :
  items <> [] ->
  prepare_rewrites g items items ow = Ok (rw', ow') -> head_is_list rw'.
Proof.
  destruct items as [|[param v] items]; [congruence|]. intros _.
  cbn [prepare_rewrites].
  destruct (unpack2 v) as [tm|]; cbn [bind]; [|discriminate].
  destruct (pin (snd tm)) as [m|]; cbn [bind]; [|discriminate].
  destruct (getitem _ _) as [p|]; cbn [bind]; [|discriminate].
  destruct (tensor_copy p) as [w|]; cbn [bind]; [|discriminate].
  destruct ow as [d|]; [|discriminate].
  apply prepare_rewrites_keeps_head.
  cbn [setitem]. rewrite String.eqb_refl. unfold head_is_list. eauto.
Qed.

(** Without a global [original_weights] the setup raises at line 105. *)
Lemma prepare_rewrites_unbound g items rw :
  items <> [] -> is_ok (prepare_rewrites g items rw None) = false.
Proof.
  destruct items as [|[param v] items]; [congruence|]. intros _.
  cbn [prepare_rewrites].
  destruct (unpack2 v) as [tm|]; cbn [bind]; [|reflexivity].
  destruct (pin (snd tm)) as [m|]; cbn [bind]; [|reflexivity].
  destruct (getitem _ _) as [p|]; cbn [bind]; [|reflexivity].
  destruct (tensor_copy p) as [w|]; reflexivity.
Qed.

Lemma apply_rewrites_head_raises ow rw n g :
  head_is_list rw -> exists x, apply_rewrites ow rw n g = (g, Some x).
Proof.
  intros (k & items & rest & ->). cbn [apply_rewrites].
  destruct (getitem ow k); cbn [bind call]; eauto.
Qed.

Lemma render_setup_rewrites gl (a : args) (e : env) :
  render_setup gl a = Ok e ->
  exists ow', prepare_rewrites (a_generator a) (a_rewrites a) (a_rewrites a)
                (original_weights gl) = Ok (e_rewrites e, ow').
Proof.
  unfold render_setup.
  destruct (start_encoder a) as [enc|]; cbn [bind]; [|discriminate].
  destruct (prepare_rewrites _ _ _ _) as [[rw ow']|]; cbn [bind];
    [|discriminate].
  destruct (prepare_truncation _); cbn [bind]; [|discriminate].
  intros [= <-]. cbn. eauto.
Qed.

(** With a rewrite given, [render] raises before any weight is installed
    and before the first forward pass: in the setup when the module has no
    [original_weights], and otherwise at the call of line 135, which leaves
    the generator as it was. *)
Lemma rewrites_never_installed gl (a : args) :
  a_rewrites a <> [] ->
  (original_weights gl = None -> is_ok (render_setup gl a) = false) /\
  (forall e g n, render_setup gl a = Ok e ->
                 exists x, batch_step e g n = (g, Raise x)).
Proof.
  intros Hne. split.
  - intros Hgl. unfold render_setup.
    destruct (start_encoder a); cbn [bind]; [|reflexivity].
    rewrite Hgl.
    pose proof (prepare_rewrites_unbound (a_generator a) _ (a_rewrites a) Hne)
      as Hp.
    destruct (prepare_rewrites _ _ _ None); [discriminate | reflexivity].
  - intros e g n He.
    destruct (render_setup_rewrites gl a e He) as (ow' & Hp).
    apply prepare_rewrites_head in Hp; [|exact Hne].
    unfold batch_step.
    destruct (apply_rewrites_head_raises (e_original_weights e) _ n g Hp)
      as (x & ->).
    eauto.
Qed.

Lemma render_setup_no_rewrites gl (a : args) (e : env) :
  a_rewrites a = [] -> render_setup gl a = Ok e -> e_rewrites e = [].
Proof.
  intros Hr He. destruct (render_setup_rewrites gl a e He) as (ow' & Hp).
  rewrite Hr in Hp. cbn in Hp. congruence.
Qed.

(** ** The batch starts and the chunks they cut *)

Lemma ceil_div_step (m b : nat) :
  0 < b -> 0 < m -> ceil_div m b = S (ceil_div (m - b) b).
Proof.
  intros Hb Hm. unfold ceil_div.
  destruct (Nat.le_gt_cases b m) as [Hle | Hgt].
  - replace (m + b - 1) with ((m - b + b - 1) + 1 * b) by lia.
    rewrite Nat.div_add by lia. lia.
  - replace (m - b) with 0 by lia.
    replace (m + b - 1) with ((m - 1) + 1 * b) by lia.
    rewrite Nat.div_add by lia.
    rewrite (Nat.div_small (m - 1) b) by lia.
    rewrite (Nat.div_small (0 + b - 1) b) by lia. lia.
Qed.

Lemma range_from_spec (fuel k stop b : nat) :
  0 < b -> stop - k <= fuel ->
  range_from fuel k stop b =
  map (fun j => k + j * b) (seq 0 (ceil_div (stop - k) b)).
Proof.
  intros Hb. revert k. induction fuel as [|fuel IH]; intros k Hf.
  - replace (stop - k) with 0 by lia.
    unfold ceil_div. rewrite (Nat.div_small (0 + b - 1) b) by lia. reflexivity.
  - cbn [range_from]. destruct (Nat.ltb_spec k stop) as [Hlt | Hge].
    + rewrite (ceil_div_step (stop - k) b) by lia.
      cbn [seq map]. f_equal; [lia|].
      rewrite IH by lia. rewrite <- seq_shift, map_map.
      replace (stop - k - b) with (stop - (k + b)) by lia.
      apply map_ext. intros j. lia.
    + replace (stop - k) with 0 by lia.
      unfold ceil_div. rewrite (Nat.div_small (0 + b - 1) b) by lia.
      reflexivity.
Qed.



Lemma slice_length {A} (n m : nat) (l : list A) :
  length (slice n m l) = Nat.min m (length l) - n.
Proof. unfold slice. now rewrite length_skipn, length_firstn. Qed.


(** The chunks cut at the batch starts, put end to end, are the sequence. *)
Lemma chunks_concat {A} (l : list A) (b fuel k : nat) :
  0 < b -> length l - k <= fuel ->
  concat (map (fun n => slice n (n + b) l) (range_from fuel k (length l) b)) =
  skipn k l.
Proof.
  intros Hb. revert k. induction fuel as [|fuel IH]; intros k Hf.
  - cbn. symmetry. apply skipn_all2. lia.
  - cbn [range_from]. destruct (Nat.ltb_spec k (length l)) as [Hlt | Hge].
    + cbn [map concat]. rewrite IH by lia.
      unfold slice.
      rewrite <- (firstn_skipn (k + b) l) at 3.
      rewrite skipn_app.
      replace (k - length (firstn (k + b) l)) with 0
        by (rewrite length_firstn; lia).
      reflexivity.
    + cbn. symmetry. apply skipn_all2. lia.
Qed.

Lemma nth_concat_uniform {A} (b : nat) (ls : list (list A)) (i : nat) (d : A) :
  0 < b ->
  (forall j, S j < length ls -> length (nth j ls []) = b) ->
  (forall j, j < length ls -> length (nth j ls []) <= b) ->
  i < length (concat ls) ->
  nth i (concat ls) d = nth (i mod b) (nth (i / b) ls []) d.
Proof.
  intros Hb. revert i. induction ls as [|l ls IH]; intros i Hfull Hle Hi.
  - cbn in Hi. lia.
  - cbn [concat] in *. rewrite length_app in Hi.
    pose proof (Hle 0 ltac:(cbn; lia)) as Hl0. cbn in Hl0.
    destruct (Nat.lt_ge_cases i (length l)) as [Hin | Hout].
    + rewrite app_nth1 by exact Hin.
      rewrite Nat.div_small, Nat.mod_small by lia. reflexivity.
    + destruct ls as [|l2 ls]; [cbn in Hi; lia|].
      assert (Hlb : length l = b) by (apply (Hfull 0); cbn; lia).
      rewrite app_nth2 by exact Hout. rewrite Hlb.
      rewrite IH.
      * replace i with ((i - b) + 1 * b) at 3 4 by lia.
        rewrite Nat.div_add, Nat.Div0.mod_add by lia.
        replace ((i - b) / b + 1) with (S ((i - b) / b)) by lia.
        reflexivity.
      * intros j Hj. apply (Hfull (S j)). cbn in *. lia.
      * intros j Hj. apply (Hle (S j)). cbn in *. lia.
      * lia.
Qed.

(** ** Runs of the pipeline *)

Lemma run_reach e allow (sched : list label) (s s' : state) :
  (forall l s0, In l sched -> allow l s0 = true) ->
  run e sched s = Some s' -> reach e allow s s'.
Proof.
  revert s'. induction sched as [|l sched IH] using rev_ind; intros s' Hal Hr.
  - cbn in Hr. injection Hr as <-. constructor.
  - rewrite run_app in Hr.
    destruct (run e sched s) as [s1|] eqn:E1; [|discriminate].
    cbn in Hr. destruct (step e l s1) as [s2|] eqn:E2; [|discriminate].
    injection Hr as <-.
    apply (reach_step e allow s l s1 s2).
    + apply IH; [|reflexivity]. intros l0 s0 Hin. apply Hal.
      apply in_or_app. now left.
    + apply Hal. apply in_or_app. right. now left.
    + exact E2.
Qed.



Lemma reach_weaken e (allow : label -> state -> bool) (s s' : state) :
  reach e allow s s' -> reach e any_step s s'.
Proof.
  intros H. induction H as [|l sa sb _ IH _ Hst]; [constructor|].
  exact (reach_step e any_step s l sa sb IH eq_refl Hst).
Qed.

(** *** The workers alone: bounded runs, no blocking *)

Ltac step_cases H :=
  repeat match type of H with
    | context [match ?x with _ => _ end] =>
        let E := fresh "E" in destruct x eqn:E; try discriminate H
    end;
  try (injection H as <-).

Ltac rewrite_cases :=
  subst;
  repeat match goal with
    | H : ?x = _ |- context [?x] => rewrite H
    end.

Lemma worker_step_measure e (l : label) (s s' : state) :
  worker l = true -> step e l s = Some s' ->
  worker_measure s' < worker_measure s /\ main s' = main s /\ gen s' = gen s /\
  calls s' = calls s.
Proof.
  intros Hw Hs.
  destruct l; try discriminate Hw; clear Hw; cbn [step] in Hs;
    unfold split_step, split_timeout, sink_step, sink_timeout in Hs;
    step_cases Hs;
    unfold worker_measure, set_renderer, queue_measure, list_sum;
    cbn [splitter renderer split_queue render_queue main gen calls];
    rewrite_cases;
    cbn [map fold_right splitter_measure renderer_measure];
    rewrite ?length_app; cbn [length]; repeat split; lia.
Qed.


(** A worker that has not ended can take a step: an empty queue lets the
    timeout fire. *)
Lemma worker_progress e (s : state) :
  (splitter s = SGet \/ (exists p, splitter s = SPut p) \/
   exists k, renderer s = RLoop k) ->
  exists l s', worker l = true /\ step e l s = Some s'.
Proof.
  intros [Hs | [[p Hs] | [k Hr]]].
  - destruct (split_queue s) as [|imgs q] eqn:Eq.
    + exists LSplitTimeout. cbn [step]. unfold split_timeout.
      rewrite Hs, Eq. eauto.
    + exists LSplit. cbn [step]. unfold split_step. rewrite Hs, Eq. eauto.
  - exists LSplit. cbn [step]. unfold split_step. rewrite Hs.
    destruct p; eauto.
  - destruct k as [|k].
    + exists LSink. cbn [step]. unfold sink_step. rewrite Hr. eauto.
    + destruct (render_queue s) as [|img q] eqn:Eq.
      * exists LSinkTimeout. cbn [step]. unfold sink_timeout.
        rewrite Hr, Eq. eauto.
      * exists LSink. cbn [step]. unfold sink_step. rewrite Hr, Eq.
        destruct (make_video_frame _ img); eauto.
Qed.

Section Pipeline.

Variable e : env.

(** The environment of a run without rewrites: the setup accepted the
    truncation, the size string comes from [output_size], the batch size is
    positive, and the generator returns one image per latent. *)
Hypothesis no_rewrites : e_rewrites e = [].
Hypothesis truncation_ok : forall z, e_truncation e <> TInt z.
Hypothesis size_ok : exists z, enc_s (e_encoder e) = output_size z.
Hypothesis batch_size_pos : 0 < a_batch_size (e_args e).
Hypothesis generator_length :
  forall g inp, length (generator g inp) = length (gi_styles inp).

Local Abbreviation latents := (a_latents (e_args e)).
Local Abbreviation N := (length (a_latents (e_args e))).
Local Abbreviation B := (a_batch_size (e_args e)).
Local Abbreviation g0 := (a_generator (e_args e)).
Local Abbreviation starts := (range_from N 0 N B).

Lemma batch_step_ok (g : generator_state) (n : nat) :
  batch_step e g n = (g, Ok (input_at e n, generator g (input_at e n))).
Proof.
  unfold batch_step, input_at, truncation_at. rewrite no_rewrites.
  cbn [apply_rewrites].
  pose proof truncation_ok as Ht. revert Ht.
  generalize (e_truncation e). intros [x|z|t] Ht; cbn [truncation_batch bind];
    try reflexivity.
  exfalso. exact (Ht z eq_refl).
Qed.

Lemma range_ok : range N B = Ok starts.
Proof.
  unfold range. destruct (Nat.eqb_spec B 0); [lia | reflexivity].
Qed.

Lemma starts_spec : starts = map (fun j => j * B) (seq 0 (ceil_div N B)).
Proof.
  rewrite (range_from_spec N 0 N B) by (try exact batch_size_pos; lia).
  rewrite Nat.sub_0_r. apply map_ext. intros j. lia.
Qed.

Lemma starts_length : length starts = ceil_div N B.
Proof. rewrite starts_spec. now rewrite length_map, length_seq. Qed.

Lemma starts_nth (j : nat) : j < ceil_div N B -> nth j starts 0 = j * B.
Proof.
  intros Hj. rewrite starts_spec.
  rewrite (nth_map_seq (fun j => j * B)) by exact Hj. reflexivity.
Qed.

(** Only the first batch starts at 0. *)
Lemma starts_zero (done rest : list nat) (n : nat) :
  starts = done ++ n :: rest -> (n = 0 <-> done = []).
Proof.
  intros Hs.
  assert (Hl : length done < ceil_div N B).
  { rewrite <- starts_length, Hs, length_app. cbn. lia. }
  pose proof (starts_nth (length done) Hl) as Hn.
  rewrite Hs, nth_middle in Hn.
  split.
  - intros ->. symmetry in Hn. apply Nat.eq_mul_0 in Hn.
    destruct Hn as [Hn | Hn]; [|lia].
    now apply length_zero_iff_nil.
  - intros ->. cbn in Hn. exact Hn.
Qed.

Lemma frames_at_length (g : generator_state) (n : nat) :
  length (frames_at e g n) = length (slice n (n + B) latents).
Proof.
  unfold frames_at. rewrite split_frames_map, length_map, generator_length.
  reflexivity.
Qed.


Lemma frames_total (done rest : list nat) :
  starts = done ++ rest ->
  length (concat (map (frames_at e g0) done)) +
  length (concat (map (frames_at e g0) rest)) = N.
Proof.
  intros Hs.
  rewrite <- length_app, <- concat_app, <- map_app, <- Hs.
  rewrite length_concat, map_map.
  rewrite (map_ext _ (fun n => length (slice n (n + B) latents)))
    by (intros n; apply frames_at_length).
  rewrite <- map_map, <- length_concat.
  rewrite (chunks_concat latents B N 0) by (try exact batch_size_pos; lia).
  reflexivity.
Qed.


(** *** The invariant of every run

    [done] are the batch starts already run and [consumed] the frames the
    sink has taken. *)
Record inv (done : list nat) (consumed : list frame) (s : state) : Prop := {
  inv_gen : gen s = g0;
  inv_starts : starts = done ++ rest_of s;
  inv_calls : calls s = map (input_at e) done;
  inv_frames :
    consumed ++ render_queue s ++ pending s ++ batch_frames (split_queue s) =
    concat (map (frames_at e g0) done);
  inv_queue : length (split_queue s) <= length done;
  inv_writes : stdin_writes (video s) = map sink_bytes consumed;
  inv_threads :
    match splitter s with
    | SNotStarted => renderer s = RNotStarted /\ done = []
    | _ => renderer s <> RNotStarted /\ done <> []
    end;
  inv_renderer :
    match renderer s with
    | RNotStarted => consumed = [] /\ stdin_closed (video s) = false /\
                     waited (video s) = false
    | RLoop r => r + length consumed = N /\ stdin_closed (video s) = false /\
                 waited (video s) = false
    | RDone => length consumed = N /\ stdin_closed (video s) = true /\
               waited (video s) = true
    | RRaised x => x = Empty /\ stdin_closed (video s) = false /\
                   waited (video s) = false
    end;
  inv_main :
    match main s with
    | MLoop _ | MJoinSplitter => True
    | MJoinRenderer => splitter s = SReturned
    | MReturned => splitter s = SReturned /\
                   (renderer s = RDone \/ renderer s = RRaised Empty)
    | MRaised x => x = RuntimeError /\ splitter s = SNotStarted
    end
}.

Lemma inv_init : inv [] [] (init_state e).
Proof.
  unfold init_state. rewrite range_ok.
  constructor; cbn; auto.
Qed.

Lemma inv_main_step (done : list nat) (consumed : list frame) (s s' : state) :
  inv done consumed s -> main_step e s = Some s' ->
  exists done', inv done' consumed s'.
Proof.
  intros [Ig Is Ic If Iq Iw It Ir Im] Hs.
  unfold main_step in Hs. unfold rest_of in Is.
  destruct (main s) as [[|n rest]| | | |x] eqn:Em; try discriminate Hs.
  - injection Hs as <-. exists done.
    constructor; unfold rest_of, pending, set_main; cbn; auto.
  - injection Hs as <-. exists (done ++ [n]).
    unfold main_batch. rewrite batch_step_ok, Ig.
    pose proof (starts_zero done rest n Is) as Hz.
    assert (Hf : consumed ++ render_queue s ++ pending s ++
                 batch_frames (split_queue s ++ [generator g0 (input_at e n)]) =
                 concat (map (frames_at e g0) (done ++ [n]))).
    { unfold batch_frames in *. rewrite !map_app, !concat_app. cbn [map concat].
      rewrite !app_nil_r, <- If, <- !app_assoc. reflexivity. }
    destruct (Nat.eqb_spec n 0) as [Hn | Hn].
    + assert (Hd : done = []) by (apply Hz; exact Hn).
      destruct (splitter s) eqn:Es;
        try (destruct It as [_ It]; contradiction).
      destruct It as [Er _].
      unfold start_threads. cbn [splitter renderer]. rewrite ?Es, ?Er.
      rewrite Er in Ir. destruct Ir as (Ic0 & Icl & Iwt).
      constructor; unfold rest_of, pending in *; cbn; rewrite ?Es in *;
        auto.
      * rewrite <- app_assoc. exact Is.
      * rewrite map_app, Ic. reflexivity.
      * rewrite !length_app. cbn. lia.
      * split; [discriminate|]. subst done. discriminate.
      * subst consumed. cbn. repeat split; auto; lia.
    + assert (Hd : done <> []) by (intros Hd; apply Hn, Hz; exact Hd).
      constructor; unfold rest_of, pending in *; cbn; auto.
      * rewrite <- app_assoc. exact Is.
      * rewrite map_app, Ic. reflexivity.
      * rewrite !length_app. cbn. lia.
      * destruct (splitter s); destruct It as [It1 It2];
          try contradiction; split; auto; intros Hnil;
          apply app_eq_nil in Hnil; destruct Hnil; discriminate.
  - destruct (splitter s) eqn:Es; try discriminate Hs; injection Hs as <-;
      exists done; constructor; unfold rest_of, pending, set_main in *;
      cbn; rewrite ?Es in *; auto.
  - destruct (renderer s) eqn:Er; try discriminate Hs; injection Hs as <-;
      exists done; constructor; unfold rest_of, pending, set_main in *;
      cbn; rewrite ?Er in *; auto.
    + rewrite Im in It. destruct It as [It _]. contradiction.
    + destruct Ir as (-> & _). auto.
Qed.

Ltac rewrite_hyps :=
  repeat match goal with
    | H : ?x = _, H' : context [?x] |- _ => rewrite H in H'
    end.

Ltac inv_fields :=
  constructor; unfold rest_of, pending, set_renderer, batch_frames in *;
  cbn [main gen calls split_queue render_queue splitter renderer video
       stdin_writes stdin_closed waited] in *;
  rewrite_hyps; rewrite_cases; cbn [map concat app length] in *.

Ltac main_cases Im s :=
  destruct (main s); auto; try discriminate Im;
  try (destruct Im as [? ?]; discriminate);
  try (destruct Im as [_ [? | ?]]; discriminate).

Ltac thread_cases It s :=
  destruct (splitter s); destruct It as [? ?];
  try contradiction; try discriminate; split; auto; discriminate.

Lemma inv_worker_step (done : list nat) (consumed : list frame) (l : label)
    (s s' : state) :
  inv done consumed s -> worker l = true -> step e l s = Some s' ->
  exists consumed', inv done consumed' s'.
Proof.
  intros [Ig Is Ic If Iq Iw It Ir Im] Hw Hs.
  destruct l; try discriminate Hw; clear Hw; cbn [step] in Hs;
    unfold split_step, split_timeout, sink_step, sink_timeout in Hs.
  - (* split_batches: get, put, task_done *)
    destruct (splitter s) as [| |[|img p]|] eqn:Es; try discriminate Hs.
    + destruct (split_queue s) as [|imgs q] eqn:Eq; try discriminate Hs.
      injection Hs as <-. exists consumed.
      inv_fields; auto; try exact If; try lia.
      main_cases Im s.
    + injection Hs as <-. exists consumed.
      inv_fields; auto; try exact If.
      main_cases Im s.
    + injection Hs as <-. exists consumed.
      inv_fields; auto.
      * rewrite <- If, <- !app_assoc. reflexivity.
      * main_cases Im s.
  - (* split_batches: the get times out *)
    destruct (splitter s) eqn:Es; try discriminate Hs.
    destruct (split_queue s) as [|imgs q] eqn:Eq; try discriminate Hs.
    injection Hs as <-. exists consumed.
    inv_fields; auto; try exact If.
    main_cases Im s.
  - (* make_video *)
    destruct (renderer s) as [|[|k]| |x] eqn:Er; try discriminate Hs.
    + injection Hs as <-. exists consumed.
      inv_fields; auto; try exact If.
      * thread_cases It s.
      * destruct Ir as (Hk & _). cbn in Hk. auto.
      * main_cases Im s.
    + destruct (render_queue s) as [|img q] eqn:Eq; try discriminate Hs.
      destruct size_ok as [z Hz].
      rewrite Hz, make_video_frame_writes in Hs.
      injection Hs as <-. exists (consumed ++ [img]).
      clear Hz.
      inv_fields; auto.
      * rewrite <- If, <- !app_assoc. reflexivity.
      * rewrite map_app. reflexivity.
      * thread_cases It s.
      * destruct Ir as (Hk & Hc & Hwt). rewrite length_app. cbn.
        repeat split; auto; lia.
      * main_cases Im s.
  - (* make_video: the get times out *)
    destruct (renderer s) as [|[|k]| |x] eqn:Er; try discriminate Hs.
    destruct (render_queue s) as [|img q] eqn:Eq; try discriminate Hs.
    injection Hs as <-. exists consumed.
    inv_fields; auto; try exact If.
    + thread_cases It s.
    + destruct Ir as (_ & Hc & Hwt). auto.
    + main_cases Im s.
Qed.

Lemma inv_step (done : list nat) (consumed : list frame) (l : label)
    (s s' : state) :
  inv done consumed s -> step e l s = Some s' ->
  exists done' consumed', inv done' consumed' s'.
Proof.
  intros Hi Hs. destruct (worker l) eqn:Hw.
  - destruct (inv_worker_step done consumed l s s' Hi Hw Hs) as [c' Hc].
    eauto.
  - destruct l; try discriminate Hw. cbn [step] in Hs.
    destruct (inv_main_step done consumed s s' Hi Hs) as [d' Hd]. eauto.
Qed.

Lemma inv_reach allow (s0 s : state) :
  (exists done consumed, inv done consumed s0) ->
  reach e allow s0 s -> exists done consumed, inv done consumed s.
Proof.
  intros H0 Hr. induction Hr as [|l s1 s2 _ IH _ Hst]; [exact H0|].
  destruct IH as (d & c & Hi). exact (inv_step d c l s1 s2 Hi Hst).
Qed.


(** *** Steps of the main thread *)

Lemma queue_measure_app (q : list raw_batch) (x : raw_batch) :
  queue_measure (q ++ [x]) = queue_measure q + (2 + 2 * length (split_frames x)).
Proof.
  unfold queue_measure. rewrite map_app, list_sum_app. cbn. lia.
Qed.

Lemma future_measure_cons (g : generator_state) (n : nat) (r : list nat) :
  future_measure e g (n :: r) =
  3 + 2 * length (split_frames (generator g (input_at e n)))
  + future_measure e g r.
Proof. reflexivity. Qed.

Lemma main_step_measure (s s' : state) :
  main_step e s = Some s' -> measure e s' < measure e s.
Proof.
  intros Hs. unfold main_step in Hs.
  destruct (main s) as [[|n rest]| | | |x] eqn:Em; try discriminate Hs.
  - injection Hs as <-.
    unfold measure, main_measure, worker_measure, set_main;
      cbn [main gen calls split_queue render_queue splitter renderer video].
    rewrite Em. lia.
  - injection Hs as <-. unfold main_batch. rewrite batch_step_ok.
    destruct (n =? 0).
    + unfold start_threads. cbn [splitter renderer].
      destruct (splitter s) eqn:Es; destruct (renderer s) eqn:Er;
        unfold measure, main_measure, worker_measure, set_main;
        cbn [main gen calls split_queue render_queue splitter renderer video];
        rewrite ?Em, ?Es, ?Er, ?queue_measure_app, ?future_measure_cons;
        cbn [splitter_measure renderer_measure]; lia.
    + unfold measure, main_measure, worker_measure;
        cbn [main gen calls split_queue render_queue splitter renderer video];
        rewrite ?Em, ?queue_measure_app, ?future_measure_cons; lia.
  - destruct (splitter s) eqn:Es; try discriminate Hs; injection Hs as <-;
      unfold measure, main_measure, worker_measure, set_main;
      cbn [main gen calls split_queue render_queue splitter renderer video];
      rewrite ?Em, ?Es; lia.
  - destruct (renderer s) eqn:Er; try discriminate Hs; injection Hs as <-;
      unfold measure, main_measure, worker_measure, set_main;
      cbn [main gen calls split_queue render_queue splitter renderer video];
      rewrite ?Em, ?Er; lia.
Qed.

Lemma step_measure (l : label) (s s' : state) :
  step e l s = Some s' -> measure e s' < measure e s.
Proof.
  intros Hs. destruct (worker l) eqn:Hw.
  - destruct (worker_step_measure e l s s' Hw Hs) as (Hm & Hmain & Hg & _).
    unfold measure, main_measure. rewrite Hmain, Hg. lia.
  - destruct l; try discriminate Hw. now apply main_step_measure.
Qed.


(** *** Runs without a premature timeout *)




Lemma starts_nil : starts = [] -> N = 0.
Proof.
  destruct N as [|n] eqn:En; [reflexivity|]. cbn. discriminate.
Qed.

(** The main thread raises only when there is no sample. *)
Lemma inv_raised (done : list nat) (consumed : list frame) (s : state) (x : exn) :
  inv done consumed s -> main s = MRaised x -> N = 0.
Proof.
  intros [Ig Is Ic If Iq Iw It Ir Im] Em.
  unfold rest_of in Is. rewrite Em in Is, Im. destruct Im as [_ Es].
  rewrite Es in It. destruct It as [_ ->]. apply starts_nil. exact Is.
Qed.











(** *** A scheduler that stops enqueuing *)



(** *** How full the queues get *)

Lemma queue_bounds (s : state) :
  reach e any_step (init_state e) s ->
  length (split_queue s) <= ceil_div N B /\ length (render_queue s) <= N.
Proof.
  intros Hr.
  destruct (inv_reach any_step (init_state e) s) as (d & c & Hi);
    [exists [], []; apply inv_init | exact Hr |].
  destruct Hi as [_ Is _ If Iq _ _ _ _].
  pose proof (frames_total d (rest_of s) Is) as Ht.
  split.
  - rewrite <- starts_length, Is, length_app. lia.
  - assert (length (render_queue s) <=
            length (concat (map (frames_at e g0) d)));
      [|lia].
    rewrite <- If, !length_app. lia.
Qed.

Lemma main_batch_enqueues (done : list nat) (consumed : list frame)
    (s : state) (n : nat) (rest : list nat) :
  inv done consumed s -> main s = MLoop (n :: rest) ->
  exists s', main_step e s = Some s' /\ main s' = MLoop rest /\
             split_queue s' = split_queue s ++ [generator g0 (input_at e n)].
Proof.
  intros [Ig Is Ic If Iq Iw It Ir Im] Em.
  unfold main_step. rewrite Em. eexists. split; [reflexivity|].
  unfold main_batch. rewrite batch_step_ok, Ig.
  unfold rest_of in Is. rewrite Em in Is.
  pose proof (starts_zero done rest n Is) as Hz.
  destruct (Nat.eqb_spec n 0) as [Hn | Hn]; [|split; reflexivity].
  assert (Hd : done = []) by (apply Hz; exact Hn).
  unfold start_threads. cbn [splitter renderer].
  destruct (splitter s) eqn:Es;
    try (destruct It as [_ It]; contradiction).
  destruct It as [-> _]. split; reflexivity.
Qed.

(** The scheduler can put every batch before the splitter takes one. *)
Lemma queue_fills (k : nat) :
  k <= ceil_div N B ->
  exists s, run e (repeat LMain k) (init_state e) = Some s /\
            main s = MLoop (skipn k starts) /\ length (split_queue s) = k.
Proof.
  induction k as [|k IH]; intros Hk.
  - exists (init_state e). cbn [repeat run]. split; [reflexivity|].
    unfold init_state. rewrite range_ok. cbn. auto.
  - destruct IH as (s & Hrun & Em & Hlen); [lia|].
    assert (Hr : reach e any_step (init_state e) s).
    { apply (run_reach e any_step (repeat LMain k)); [reflexivity | exact Hrun]. }
    destruct (inv_reach any_step (init_state e) s) as (d & c & Hi);
      [exists [], []; apply inv_init | exact Hr |].
    rewrite (skipn_nth_cons starts k 0) in Em by (rewrite starts_length; lia).
    destruct (main_batch_enqueues d c s _ _ Hi Em) as (s' & Hs & Em' & Hq).
    exists s'. change (repeat LMain (S k)) with (LMain :: repeat LMain k).
    rewrite repeat_cons, run_app, Hrun. cbn [run step]. rewrite Hs.
    split; [reflexivity|]. split; [exact Em'|].
    rewrite Hq, length_app. cbn. lia.
Qed.

End Pipeline.

(** ** [render] after a successful setup *)

Lemma render_setup_env gl (a : args) (e : env) :
  render_setup gl a = Ok e -> a_rewrites a = [] ->
  e_args e = a /\ e_rewrites e = [] /\ (forall z, e_truncation e <> TInt z) /\
  exists z, enc_s (e_encoder e) = output_size z.
Proof.
  intros He Hr.
  destruct (render_setup_encoder gl a e He) as [Henc Ha].
  destruct (render_setup_truncation gl a e He) as [Ht Hcases].
  split; [exact Ha|]. split; [exact (render_setup_no_rewrites gl a e Hr He)|].
  split.
  - intros z Hz. rewrite Ht in Hz.
    destruct Hcases as [[x Hx] | [t Hx]]; congruence.
  - exists (a_out_size a). exact (start_encoder_size a _ Henc).
Qed.



(** C8, as amended.  The queues have no capacity: a put never blocks, and
    the scheduler can enqueue all ceil(N/B) batches before one is taken.
    What bounds them is the run: at most ceil(N/B) batches and at most N
    frames are pending. *)
Theorem queues_are_bounded_by_the_run_only gl (a : args) (e : env) :
  render_setup gl a = Ok e -> a_rewrites a = [] -> 0 < a_batch_size a ->
  (forall g inp, length (generator g inp) = length (gi_styles inp)) ->
  (forall s, reach e any_step (init_state e) s ->
     length (split_queue s) <= ceil_div (length (a_latents a)) (a_batch_size a) /\
     length (render_queue s) <= length (a_latents a)) /\
  (forall s n rest, main s = MLoop (n :: rest) ->
     exists s', step e LMain s = Some s') /\
  (exists s, reach e any_step (init_state e) s /\
     length (split_queue s) = ceil_div (length (a_latents a)) (a_batch_size a)).
Proof.
  intros He Hr HB Hg.
  destruct (render_setup_env gl a e He Hr) as (Ha & Hrw & Htr & Hsz).
  rewrite <- Ha in HB. rewrite <- Ha. split; [|split].
  - intros s Hs. exact (queue_bounds e Hrw Htr Hsz HB Hg s Hs).
  - intros s n rest Em. cbn [step]. unfold main_step. rewrite Em. eauto.
  - edestruct (queue_fills e) as (s & Hrun & _ & Hlen);
      try eassumption; [apply Nat.le_refl|].
    exists s. split; [|exact Hlen].
    eapply run_reach; [|exact Hrun]. reflexivity.
Qed.

(** ** No sample at all *)

Lemma idle_init (e : env) :
  length (a_latents (e_args e)) = 0 -> idle (init_state e).
Proof.
  intros HN. unfold idle, init_state, range. rewrite HN. cbn.
  repeat split; auto.
  destruct (a_batch_size (e_args e) =? 0); eauto.
Qed.

Lemma idle_step (e : env) (l : label) (s s' : state) :
  idle s -> step e l s = Some s' -> idle s'.
Proof.
  intros (Es & Er & Hc & Hq & Hrq & Hv & Hm) Hs.
  destruct l; cbn [step] in Hs;
    unfold main_step, split_step, split_timeout, sink_step, sink_timeout in Hs;
    rewrite ?Es, ?Er in Hs; try discriminate Hs.
  destruct Hm as [Em | [Em | [x Em]]]; rewrite Em in Hs;
    rewrite ?Es in Hs; try discriminate Hs; injection Hs as <-;
    unfold idle, set_main; cbn; repeat split; eauto.
Qed.

Lemma idle_reach (e : env) allow (s : state) :
  length (a_latents (e_args e)) = 0 ->
  reach e allow (init_state e) s -> idle s.
Proof.
  intros HN Hr. induction Hr as [|l s1 s2 _ IH _ Hst]; [now apply idle_init|].
  exact (idle_step e l s1 s2 IH Hst).
Qed.

(** C10.  With an empty sequence no batch runs and no worker starts, so the
    [join] of line 157 raises RuntimeError (a zero batch size raises
    ValueError at line 114 before it); nothing is written and the encoder's
    input stays open.  [render] returns only if there is a sample. *)
Theorem render_without_samples_fails_at_join gl (a : args) (e : env) :
  render_setup gl a = Ok e ->
  (length (a_latents a) = 0 ->
     (forall s, reach e any_step (init_state e) s ->
        main s <> MReturned /\ splitter s = SNotStarted /\
        renderer s = RNotStarted /\ calls s = [] /\
        stdin_writes (video s) = [] /\ stdin_closed (video s) = false /\
        waited (video s) = false) /\
     (0 < a_batch_size a ->
        exists s, run e [LMain; LMain] (init_state e) = Some s /\
                  main s = MRaised RuntimeError /\
                  forall l, step e l s = None) /\
     (a_batch_size a = 0 -> main (init_state e) = MRaised ValueError)) /\
  (forall s, reach e any_step (init_state e) s -> main s = MReturned ->
             0 < length (a_latents a)).
Proof.
  intros He. destruct (render_setup_encoder gl a e He) as [_ Ha].
  assert (Hidle : length (a_latents a) = 0 ->
                  forall s, reach e any_step (init_state e) s -> idle s).
  { intros HN s Hr. apply (idle_reach e any_step); [|exact Hr].
    rewrite Ha. exact HN. }
  split.
  - intros HN. split; [|split].
    + intros s Hr. destruct (Hidle HN s Hr) as (Es & Er & Hc & _ & _ & Hv & Hm).
      rewrite Hv. cbn. repeat split; auto.
      destruct Hm as [Em | [Em | [x Em]]]; rewrite Em; discriminate.
    + intros HB. unfold init_state, range. rewrite Ha, HN.
      destruct (Nat.eqb_spec (a_batch_size a) 0) as [H0 | H0]; [lia|].
      cbn. eexists. split; [reflexivity|]. split; [reflexivity|].
      intros []; reflexivity.
    + intros HB. unfold init_state, range. rewrite Ha, HB. reflexivity.
  - intros s Hr Em.
    destruct (length (a_latents a)) eqn:HN; [|lia].
    destruct (Hidle eq_refl s Hr) as (_ & _ & _ & _ & _ & _ & Hm).
    destruct Hm as [Hm | [Hm | [x Hm]]]; congruence.
Qed.

(** ** More of [render]: the setup *)

(** The environment the setup builds when it succeeds without rewrites. *)
Definition setup_env (a : args) : env :=
  {| e_args := a;
     e_encoder :=
       {| enc_format := "rawvideo"; enc_pix_fmt := "rgb24";
          enc_framerate :=
            binary64
              (inject_Z (Z.of_nat (length (a_latents a))) / a_duration a);
          enc_s := output_size (a_out_size a);
          enc_audio :=
            match a_audio_file a with
            | Some f => Some (f, a_offset a, binary64 (a_offset a + a_duration a))
            | None => None
            end;
          enc_output := a_output_file a |};
     e_rewrites := []; e_original_weights := [];
     e_truncation := a_truncation a |}.

(** X1.  As render.py stands, the setup succeeds exactly when the duration is
    not zero, no rewrite is given and the truncation is not an integer; the
    zero duration is found first, whatever the other arguments are. *)
Theorem render_setup_succeeds_iff (a : args) :
  (render_setup render_py_globals a = Ok (setup_env a) <->
   Qeq_bool (a_duration a) 0 = false /\ a_rewrites a = [] /\
   forall z, a_truncation a <> TInt z) /\
  (forall e, render_setup render_py_globals a = Ok e -> e = setup_env a) /\
  (forall gl, Qeq_bool (a_duration a) 0 = true ->
              render_setup gl a = Raise ZeroDivisionError).
Proof.
  assert (Hgen : forall e, render_setup render_py_globals a = Ok e ->
            Qeq_bool (a_duration a) 0 = false /\ a_rewrites a = [] /\
            (forall z, a_truncation a <> TInt z) /\ e = setup_env a).
  { intros e He.
    pose proof (render_setup_encoder _ a e He) as [Henc Ha].
    pose proof (render_setup_truncation _ a e He) as [Ht Hcases].
    assert (Hr : a_rewrites a = []).
    { destruct (a_rewrites a) as [|p r] eqn:Er; [reflexivity|].
      assert (Hne : a_rewrites a <> []) by (rewrite Er; discriminate).
      destruct (rewrites_never_installed render_py_globals a Hne) as [H _].
      rewrite He in H. specialize (H eq_refl). discriminate. }
    revert He. unfold render_setup, start_encoder, framerate, setup_env.
    rewrite Hr. cbn [prepare_rewrites bind render_py_globals original_weights].
    destruct (Qeq_bool (a_duration a) 0); cbn [bind]; [discriminate|].
    destruct (a_truncation a) as [x|z|t]; cbn [prepare_truncation bind];
      try discriminate; intros [= <-]; cbn [fst snd];
      (split; [reflexivity|]); (split; [reflexivity|]);
      (split; [intros z; discriminate | reflexivity]). }
  split; [split|split].
  - intros He. destruct (Hgen _ He) as (H1 & H2 & H3 & _). auto.
  - intros (Hd & Hr & Ht).
    unfold render_setup, start_encoder, framerate, setup_env.
    rewrite Hd, Hr. cbn [prepare_rewrites bind render_py_globals original_weights].
    destruct (a_truncation a) as [x|z|t]; cbn [prepare_truncation bind fst snd];
      try reflexivity.
    exfalso. exact (Ht z eq_refl).
  - intros e He. apply (Hgen e He).
  - intros gl Hd. unfold render_setup, start_encoder, framerate.
    rewrite Hd. reflexivity.
Qed.



(** ** More of [render]: the sink counts its frames *)

(** What the loop of line 75 keeps, for any generator and any arguments. *)
Definition sink_counted (e : env) (s : state) : Prop :=
  let n := length (a_latents (e_args e)) in
  let v := video s in
  match renderer s with
  | RNotStarted =>
      stdin_writes v = [] /\ stdin_closed v = false /\ waited v = false
  | RLoop r =>
      r + length (stdin_writes v) = n /\ stdin_closed v = false /\
      waited v = false
  | RDone =>
      length (stdin_writes v) = n /\ stdin_closed v = true /\ waited v = true
  | RRaised _ =>
      length (stdin_writes v) < n /\ stdin_closed v = false /\
      waited v = false
  end.

Ltac same_sink Hk :=
  unfold set_main in *;
  cbn [renderer video stdin_writes stdin_closed waited] in *; exact Hk.

Lemma sink_counted_step (e : env) (l : label) (s s' : state) :
  sink_counted e s -> step e l s = Some s' -> sink_counted e s'.
Proof.
  unfold sink_counted. intros Hk Hs.
  destruct l; cbn [step] in Hs.
  - unfold main_step in Hs.
    destruct (main s) as [[|n rest]| | | |x]; try discriminate Hs.
    + injection Hs as <-. same_sink Hk.
    + injection Hs as <-. unfold main_batch.
      destruct (batch_step e (gen s) n) as [g' [[inp outputs]|x]];
        [|same_sink Hk].
      destruct (n =? 0); [|same_sink Hk].
      unfold start_threads. cbn [splitter renderer].
      destruct (splitter s); try same_sink Hk.
      destruct (renderer s) eqn:Er; try same_sink Hk.
      cbn [renderer video]. destruct Hk as (Hw & Hc & Hwt).
      rewrite Hw. cbn [length]. repeat split; auto; lia.
    + destruct (splitter s); try discriminate Hs; injection Hs as <-;
        same_sink Hk.
    + destruct (renderer s) eqn:Er; try discriminate Hs; injection Hs as <-;
        unfold set_main; cbn [renderer video]; rewrite Er; exact Hk.
  - unfold split_step in Hs.
    destruct (splitter s) as [| |[|img p]|]; try discriminate Hs;
      try (destruct (split_queue s); try discriminate Hs);
      injection Hs as <-; same_sink Hk.
  - unfold split_timeout in Hs.
    destruct (splitter s); try discriminate Hs.
    destruct (split_queue s); try discriminate Hs.
    injection Hs as <-. same_sink Hk.
  - unfold sink_step in Hs.
    destruct (renderer s) as [|[|k]| |x]; try discriminate Hs.
    + injection Hs as <-. unfold set_renderer.
      cbn [renderer video stdin_writes stdin_closed waited].
      destruct Hk as (Hn & _). auto.
    + destruct (render_queue s) as [|img q]; try discriminate Hs.
      destruct Hk as (Hn & Hc & Hwt).
      destruct (make_video_frame _ img); injection Hs as <-;
        unfold set_renderer;
        cbn [renderer video stdin_writes stdin_closed waited];
        rewrite ?length_app; cbn [length]; repeat split; auto; lia.
  - unfold sink_timeout in Hs.
    destruct (renderer s) as [|[|k]| |x]; try discriminate Hs.
    destruct (render_queue s); try discriminate Hs.
    injection Hs as <-. unfold set_renderer.
    cbn [renderer video stdin_writes stdin_closed waited].
    destruct Hk as (Hn & Hc & Hwt). repeat split; auto; lia.
Qed.

(** X3.  Whatever the generator returns and however the threads interleave, the
    sink writes at most N frames; the encoder's input is closed exactly
    when the sink has finished, after exactly N writes, and a sink that
    raised has written fewer than N frames and left the input open. *)
Theorem sink_writes_at_most_n_frames (e : env) allow (s : state) :
  reach e allow (init_state e) s ->
  length (stdin_writes (video s)) <= length (a_latents (e_args e)) /\
  (stdin_closed (video s) = true <-> renderer s = RDone) /\
  (waited (video s) = stdin_closed (video s)) /\
  (renderer s = RDone ->
   length (stdin_writes (video s)) = length (a_latents (e_args e))) /\
  (forall x, renderer s = RRaised x ->
   length (stdin_writes (video s)) < length (a_latents (e_args e))).
Proof.
  intros Hr.
  assert (Hk : sink_counted e s).
  { induction Hr as [|l s1 s2 _ IH _ Hst].
    - unfold sink_counted, init_state. cbn. auto.
    - exact (sink_counted_step e l s1 s2 IH Hst). }
  unfold sink_counted in Hk.
  destruct (renderer s) as [|r| |x]; destruct Hk as (H1 & H2 & H3);
    rewrite ?H1, ?H2, ?H3; cbn [length];
    repeat split; try congruence; try lia;
    intros; try discriminate; try lia.
Qed.

Lemma sink_counted_reach (e : env) allow (s : state) :
  reach e allow (init_state e) s -> sink_counted e s.
Proof.
  intros Hr. induction Hr as [|l s1 s2 _ IH _ Hst].
  - unfold sink_counted, init_state. cbn. auto.
  - exact (sink_counted_step e l s1 s2 IH Hst).
Qed.

(** ** More of [render]: the joins *)

Section Joins.

Variable e : env.

(** A run without rewrites, with a truncation the setup accepts, a positive
    batch size and a sample.  The size string is any string: the sink may
    raise on a frame. *)
Hypothesis no_rewrites : e_rewrites e = [].
Hypothesis truncation_ok : forall z, e_truncation e <> TInt z.
Hypothesis batch_size_pos : 0 < a_batch_size (e_args e).
Hypothesis some_sample : 0 < length (a_latents (e_args e)).

Local Abbreviation N := (length (a_latents (e_args e))).
Local Abbreviation B := (a_batch_size (e_args e)).
Local Abbreviation starts := (range_from N 0 N B).

Definition started (s : state) : Prop :=
  splitter s <> SNotStarted /\ renderer s <> RNotStarted.

(** Where the main thread is, against where the workers are. *)
Definition joins_ok (s : state) : Prop :=
  match main s with
  | MLoop rest =>
      exists done, starts = done ++ rest /\
        (done = [] -> splitter s = SNotStarted /\ renderer s = RNotStarted) /\
        (done <> [] -> started s)
  | MJoinSplitter => started s
  | MJoinRenderer => splitter s = SReturned /\ renderer s <> RNotStarted
  | MReturned =>
      splitter s = SReturned /\
      (renderer s = RDone \/ exists x, renderer s = RRaised x)
  | MRaised _ => False
  end.

Lemma joins_ok_init : joins_ok (init_state e).
Proof.
  unfold joins_ok, init_state. cbn [main splitter renderer].
  rewrite (range_ok e batch_size_pos).
  exists []. split; [reflexivity|]. split; [auto|].
  intros H. contradiction H. reflexivity.
Qed.

Lemma joins_ok_worker (l : label) (s s' : state) :
  worker l = true -> step e l s = Some s' ->
  main s' = main s /\
  (splitter s = SNotStarted -> splitter s' = SNotStarted) /\
  (splitter s <> SNotStarted -> splitter s' <> SNotStarted) /\
  (splitter s = SReturned -> splitter s' = SReturned) /\
  (renderer s = RNotStarted -> renderer s' = RNotStarted) /\
  (renderer s <> RNotStarted -> renderer s' <> RNotStarted) /\
  (renderer s = RDone -> renderer s' = RDone) /\
  (forall x, renderer s = RRaised x -> renderer s' = RRaised x).
Proof.
  intros Hw Hs. destruct l; try discriminate Hw; cbn [step] in Hs.
  - unfold split_step in Hs.
    destruct (splitter s) as [| |[|img p]|] eqn:Es; try discriminate Hs;
      try (destruct (split_queue s); try discriminate Hs);
      injection Hs as <-; cbn [main splitter renderer];
      repeat split; auto; try discriminate; intros H; discriminate H.
  - unfold split_timeout in Hs.
    destruct (splitter s) eqn:Es; try discriminate Hs.
    destruct (split_queue s); try discriminate Hs.
    injection Hs as <-. cbn [main splitter renderer].
    repeat split; auto; try discriminate; intros H; discriminate H.
  - unfold sink_step in Hs.
    destruct (renderer s) as [|[|k]| |x] eqn:Er; try discriminate Hs.
    + injection Hs as <-. unfold set_renderer. cbn [main splitter renderer].
      repeat split; auto; try discriminate; intros; discriminate.
    + destruct (render_queue s) as [|img q]; try discriminate Hs.
      destruct (make_video_frame _ img); injection Hs as <-;
        unfold set_renderer; cbn [main splitter renderer];
        repeat split; auto; try discriminate; intros; discriminate.
  - unfold sink_timeout in Hs.
    destruct (renderer s) as [|[|k]| |x] eqn:Er; try discriminate Hs.
    destruct (render_queue s); try discriminate Hs.
    injection Hs as <-. unfold set_renderer. cbn [main splitter renderer].
    repeat split; auto; try discriminate; intros; discriminate.
Qed.

Lemma joins_ok_step (l : label) (s s' : state) :
  joins_ok s -> step e l s = Some s' -> joins_ok s'.
Proof.
  intros Hj Hs. destruct (worker l) eqn:Hw.
  - destruct (joins_ok_worker l s s' Hw Hs)
      as (Em & S0 & S1 & S2 & R0 & R1 & R2 & R3).
    unfold joins_ok, started in *. rewrite Em.
    destruct (main s) as [rest| | | |x].
    + destruct Hj as (d & Hd & H0 & H1). exists d. split; [exact Hd|].
      split.
      * intros E. destruct (H0 E). auto.
      * intros E. destruct (H1 E). auto.
    + destruct Hj. auto.
    + destruct Hj. auto.
    + destruct Hj as [Hsp [Hr | [x Hr]]]; split; auto. right. exists x. auto.
    + exact Hj.
  - destruct l; try discriminate Hw. cbn [step] in Hs.
    unfold main_step in Hs. unfold joins_ok in Hj.
    destruct (main s) as [[|n rest]| | | |x] eqn:Em; try discriminate Hs.
    + (* the loop is over *)
      injection Hs as <-. unfold joins_ok, set_main.
      cbn [main splitter renderer]. destruct Hj as (d & Hd & _ & H1).
      apply H1. intros ->. cbn [app] in Hd.
      pose proof (starts_length e batch_size_pos) as Hl. rewrite Hd in Hl.
      cbn [length] in Hl. unfold ceil_div in Hl. symmetry in Hl.
      apply Nat.div_small_iff in Hl; lia.
    + (* one batch *)
      injection Hs as <-. destruct Hj as (d & Hd & H0 & H1).
      unfold main_batch.
      rewrite (batch_step_ok e no_rewrites truncation_ok).
      pose proof (starts_zero e batch_size_pos d rest n Hd) as Hz.
      destruct (Nat.eqb_spec n 0) as [En | En].
      * destruct (H0 (proj1 Hz En)) as [Hsp Hre].
        unfold start_threads. cbn [splitter renderer]. rewrite Hsp, Hre.
        unfold joins_ok, started. cbn [main splitter renderer].
        exists (d ++ [n]). rewrite <- app_assoc. split; [exact Hd|].
        split; [intros E; destruct d; discriminate E|].
        intros _. split; discriminate.
      * assert (Hne : d <> []) by (intros E; apply En, Hz, E).
        unfold joins_ok. cbn [main splitter renderer].
        exists (d ++ [n]). rewrite <- app_assoc. split; [exact Hd|].
        split; [intros E; destruct d; discriminate E|].
        intros _. exact (H1 Hne).
    + (* the join of the splitter *)
      destruct Hj as [Hsp Hre].
      destruct (splitter s) eqn:Es; try discriminate Hs.
      * contradiction Hsp. reflexivity.
      * injection Hs as <-. unfold joins_ok, set_main.
        cbn [main splitter renderer]. auto.
    + (* the join of the sink *)
      destruct Hj as [Hsp Hre].
      destruct (renderer s) as [|k| |x] eqn:Er; try discriminate Hs.
      * contradiction Hre. reflexivity.
      * injection Hs as <-. unfold joins_ok, set_main.
        cbn [main splitter renderer]. rewrite Er. auto.
      * injection Hs as <-. unfold joins_ok, set_main.
        cbn [main splitter renderer]. rewrite Er. split; [exact Hsp|].
        right. exists x. reflexivity.
Qed.

Lemma joins_ok_reach (s : state) :
  reach e any_step (init_state e) s -> joins_ok s.
Proof.
  intros Hr. induction Hr as [|l s1 s2 _ IH _ Hst].
  - exact joins_ok_init.
  - exact (joins_ok_step l s1 s2 IH Hst).
Qed.

(** X8.  With a sample to render, [render] raises nothing in its batch loop
    and its joins, whatever the workers do and whatever ends them.  When it
    returns the splitter has returned, and either the sink wrote N frames,
    closed the encoder's input and waited, or the sink ended with an
    exception, that of a timed-out [get] or one raised on a frame, having
    written fewer than N frames and left the input open: the exception
    does not reach the caller.  A sink that has raised does not block the
    join. *)
Theorem render_returns_whatever_ends_the_sink (s : state) :
  reach e any_step (init_state e) s ->
  (forall x, main s <> MRaised x) /\
  (main s = MReturned ->
   splitter s = SReturned /\
   ((renderer s = RDone /\ length (stdin_writes (video s)) = N /\
     stdin_closed (video s) = true /\ waited (video s) = true) \/
    (exists x, renderer s = RRaised x /\
     length (stdin_writes (video s)) < N /\
     stdin_closed (video s) = false /\ waited (video s) = false))) /\
  (forall x, main s = MJoinRenderer -> renderer s = RRaised x ->
     exists s', step e LMain s = Some s' /\ main s' = MReturned /\
                renderer s' = RRaised x /\ video s' = video s).
Proof.
  intros Hr. pose proof (joins_ok_reach s Hr) as Hj.
  pose proof (sink_counted_reach e any_step s Hr) as Hk.
  unfold joins_ok in Hj. unfold sink_counted in Hk.
  split; [|split].
  - intros x Hx. rewrite Hx in Hj. exact Hj.
  - intros Em. rewrite Em in Hj. destruct Hj as [Hsp [Hd | [x Hx]]].
    + split; [exact Hsp|]. left. rewrite Hd in Hk. tauto.
    + split; [exact Hsp|]. right. exists x. rewrite Hx in Hk. tauto.
  - intros x Em Er. eexists. cbn [step]. unfold main_step.
    rewrite Em, Er. split; [reflexivity|].
    unfold set_main. cbn [main renderer video]. auto.
Qed.

End Joins.

(** ** More of [render]: every run, whatever the timing *)

Definition bend_layer (bd : bend) : string :=
  match bd with
  | BendStatic layer _ => layer
  | BendMod layer _ _ => layer
  end.

Lemma firstn_app_exact {A} (l1 l2 : list A) :
  firstn (length l1) (l1 ++ l2) = l1.
Proof.
  rewrite firstn_app, Nat.sub_diag, firstn_all. cbn. apply app_nil_r.
Qed.

Lemma option_map_nth {A} (f : A -> A) (l : list (option A)) (k : nat) :
  (nth_error (map (option_map f) l) k = Some None <->
   nth_error l k = Some None) /\
  (forall t, nth_error l k = Some (Some t) ->
             nth_error (map (option_map f) l) k = Some (Some (f t))).
Proof.
  rewrite nth_error_map.
  destruct (nth_error l k) as [[t|]|]; cbn; split;
    try (split; intros H; try discriminate H; reflexivity);
    intros t0 H; try discriminate H.
  injection H as <-. reflexivity.
Qed.

Section Runs.

Variable gl : module_globals.
Variable a : args.
Variable e : env.

(** [render] got past its setup, with no rewrite and a positive batch
    size. *)
Hypothesis setup_ok : render_setup gl a = Ok e.
Hypothesis rewrites_empty : a_rewrites a = [].
Hypothesis batch_pos : 0 < a_batch_size a.

Local Abbreviation N := (length (a_latents a)).
Local Abbreviation B := (a_batch_size a).
Local Abbreviation starts := (range_from N 0 N B).
Local Abbreviation all_frames :=
  (concat (map (frames_at e (a_generator a)) starts)).

Lemma run_inv (s : state) :
  reach e any_step (init_state e) s ->
  e_args e = a /\ exists done consumed, inv e done consumed s.
Proof.
  intros Hr.
  destruct (render_setup_env gl a e setup_ok rewrites_empty)
    as (Ha & Hrw & Htr & Hsz).
  split; [exact Ha|].
  assert (HB : 0 < a_batch_size (e_args e)) by (rewrite Ha; exact batch_pos).
  apply (inv_reach e Hrw Htr Hsz HB any_step (init_state e) s); [|exact Hr].
  exists [], []. apply inv_init. exact HB.
Qed.

(** The forward passes made so far, by position. *)
Lemma calls_nth (s : state) (j : nat) (inp : gen_input) :
  reach e any_step (init_state e) s -> nth_error (calls s) j = Some inp ->
  j < ceil_div N B /\ inp = input_at e (j * B).
Proof.
  intros Hr Hj. destruct (run_inv s Hr) as (Ha & d & c & Hi).
  destruct Hi as [_ Is Ic _ _ _ _ _ _]. rewrite Ha in Is.
  assert (HB : 0 < a_batch_size (e_args e)) by (rewrite Ha; exact batch_pos).
  rewrite Ic, nth_error_map in Hj.
  destruct (nth_error d j) as [n|] eqn:En; [|discriminate].
  injection Hj as <-.
  assert (Hjd : j < length d) by (apply nth_error_Some; congruence).
  assert (Hlen : length d <= ceil_div N B).
  { pose proof (starts_length e HB) as Hl. rewrite Ha in Hl.
    rewrite <- Hl, Is, length_app. lia. }
  split; [lia|].
  pose proof (starts_nth e HB j) as Hn. rewrite Ha in Hn.
  rewrite Is, app_nth1 in Hn by exact Hjd.
  apply (nth_error_nth _ _ 0) in En. rewrite <- Hn, En by lia. reflexivity.
Qed.

(** X4.  Under any interleaving and any timeouts, the forward passes made so far
    are those of the first k batches in order, pass j on the latents
    [jB : jB+B] with the caller's randomize flag and the latent flag set;
    the generator is the caller's, untouched; and the workers have been
    started exactly when a first pass has been made. *)
Theorem forward_passes_are_the_first_batches (s : state) :
  reach e any_step (init_state e) s ->
  exists k, k <= ceil_div N B /\
    calls s = map (input_at e) (firstn k starts) /\
    length (calls s) = k /\
    gen s = a_generator a /\
    (k = 0 <-> splitter s = SNotStarted) /\
    (k = 0 <-> renderer s = RNotStarted) /\
    forall j, j < k ->
      exists inp, nth_error (calls s) j = Some inp /\
        gi_styles inp = slice (j * B) (j * B + B) (a_latents a) /\
        gi_input_is_latent inp = true /\
        gi_randomize_noise inp = a_randomize_noise a /\
        gi_truncation inp =
          match a_truncation a with
          | TTensor t => TTensor (slice (j * B) (j * B + B) t)
          | t => t
          end.
Proof.
  intros Hr. destruct (run_inv s Hr) as (Ha & d & c & Hi).
  destruct (render_setup_truncation gl a e setup_ok) as [Ht _].
  assert (HB : 0 < a_batch_size (e_args e)) by (rewrite Ha; exact batch_pos).
  pose proof Hi as [Ig Is Ic _ _ _ It _ _]. rewrite Ha in Is, Ig.
  exists (length d).
  assert (Hlen : length d <= ceil_div N B).
  { pose proof (starts_length e HB) as Hl. rewrite Ha in Hl.
    rewrite <- Hl, Is, length_app. lia. }
  split; [exact Hlen|]. split.
  { rewrite Is, firstn_app_exact. exact Ic. }
  split; [rewrite Ic; apply length_map|]. split; [exact Ig|].
  split; [|split].
  - rewrite length_zero_iff_nil.
    destruct (splitter s); destruct It as [It1 It2]; split; intros H;
      try discriminate; try reflexivity; try contradiction; try assumption.
  - rewrite length_zero_iff_nil.
    destruct (splitter s); destruct It as [It1 It2]; split; intros H;
      try discriminate; try reflexivity; try contradiction; try assumption;
      try congruence.
  - intros j Hj.
    assert (Hsome : exists inp, nth_error (calls s) j = Some inp).
    { destruct (nth_error (calls s) j) eqn:En; [eauto|].
      apply nth_error_None in En. rewrite Ic, length_map in En. lia. }
    destruct Hsome as (inp & Hinp). exists inp. split; [exact Hinp|].
    destruct (calls_nth s j inp Hr Hinp) as (_ & ->).
    unfold input_at, truncation_at, batch_input.
    cbn [gi_styles gi_input_is_latent gi_randomize_noise gi_truncation].
    rewrite Ha, Ht. repeat split; reflexivity.
Qed.

(** X5.  In every forward pass the noise list has one entry per scale: a scale
    the caller left out stays out, a scale that is given is cut at the
    batch's index range, and when it has one row per latent the cut has as
    many rows as the batch has latents. *)
Theorem noise_follows_the_batch (s : state) (j : nat) (inp : gen_input) :
  reach e any_step (init_state e) s -> nth_error (calls s) j = Some inp ->
  length (gi_noise inp) = length (a_noise a) /\
  forall k,
    (nth_error (gi_noise inp) k = Some None <->
     nth_error (a_noise a) k = Some None) /\
    forall t, nth_error (a_noise a) k = Some (Some t) ->
      nth_error (gi_noise inp) k = Some (Some (slice (j * B) (j * B + B) t)) /\
      (length t = N ->
       length (slice (j * B) (j * B + B) t) = length (gi_styles inp)).
Proof.
  intros Hr Hinp. destruct (run_inv s Hr) as (Ha & _).
  destruct (calls_nth s j inp Hr Hinp) as (_ & ->).
  unfold input_at, batch_input. cbn [gi_noise gi_styles]. rewrite Ha.
  split; [apply length_map|].
  intros k.
  destruct (option_map_nth (slice (j * B) (j * B + B)) (a_noise a) k)
    as [Hnone Hsome].
  split; [exact Hnone|].
  intros t Ht. split; [exact (Hsome t Ht)|].
  intros Hlen. rewrite !slice_length, Hlen. reflexivity.
Qed.

(** X6.  In every forward pass the bends come in the caller's order with the
    caller's layers: a bend without modulation passes its transform as it
    is, a bend with one passes its transform applied to the modulation cut
    at the batch's index range. *)
Theorem bends_keep_their_order (s : state) (j : nat) (inp : gen_input) :
  reach e any_step (init_state e) s -> nth_error (calls s) j = Some inp ->
  map fst (gi_transform_dict_list inp) = map bend_layer (a_bends a) /\
  forall i bd, nth_error (a_bends a) i = Some bd ->
    nth_error (gi_transform_dict_list inp) i =
    Some (match bd with
          | BendStatic layer transform => (layer, transform)
          | BendMod layer transform modulation =>
              (layer, transform (slice (j * B) (j * B + B) modulation))
          end).
Proof.
  intros Hr Hinp. destruct (run_inv s Hr) as (Ha & _).
  destruct (calls_nth s j inp Hr Hinp) as (_ & ->).
  unfold input_at, batch_input, bend_batch.
  cbn [gi_transform_dict_list]. rewrite Ha. split.
  - rewrite map_map. apply map_ext. intros [l t | l t m]; reflexivity.
  - intros i bd Hbd. rewrite nth_error_map, Hbd. cbn.
    destruct bd; reflexivity.
Qed.


Section Samples.

Hypothesis some_sample : 0 < N.

(** X9.  No run gets stuck: from every state a run reaches, some schedule, no
    longer than the measure of that state, takes [render] to its return. *)
Theorem render_can_always_return (s : state) :
  reach e any_step (init_state e) s ->
  exists sched s', run e sched s = Some s' /\ main s' = MReturned /\
                   length sched <= measure e s.
Proof.
  intros Hr. destruct (run_inv s Hr) as (Ha & d & c & Hi).
  destruct (render_setup_env gl a e setup_ok rewrites_empty)
    as (_ & Hrw & Htr & Hsz).
  assert (HB : 0 < a_batch_size (e_args e)) by (rewrite Ha; exact batch_pos).
  clear Hr. remember (measure e s) as m eqn:Hm.
  assert (Hle : measure e s <= m) by lia. clear Hm.
  revert s d c Hi Hle. induction m as [|m IH]; intros s d c Hi Hle.
  - (* measure 0: the main thread is over *)
    unfold measure, main_measure in Hle.
    destruct (main s) as [r| | | |x] eqn:Em; try lia.
    + exists [], s. cbn. repeat split; auto; lia.
    + pose proof (inv_raised e d c s x Hi Em) as H0. rewrite Ha in H0. lia.
  - destruct (main s) as [r| | | |x] eqn:Em.
    all: try (exists [], s; cbn; repeat split; auto; lia).
    all: try (pose proof (inv_raised e d c s x Hi Em) as H0;
              rewrite Ha in H0; lia).
    all: assert (Hstep : exists l s1, step e l s = Some s1);
      [| destruct Hstep as (l & s1 & Hs);
         pose proof (step_measure e Hrw Htr HB l s s1 Hs) as Hdec;
         destruct (inv_step e Hrw Htr Hsz HB d c l s s1 Hi Hs)
           as (d1 & c1 & Hi1);
         destruct (IH s1 d1 c1 Hi1 ltac:(lia)) as (sched & s' & Hrun & Hret & Hl);
         exists (l :: sched), s'; cbn [run length]; rewrite Hs;
         repeat split; auto; lia ].
    + exists LMain. cbn [step]. unfold main_step. rewrite Em.
      destruct r; eauto.
    + destruct (splitter s) as [| |p|] eqn:Es.
      * exists LMain. cbn [step]. unfold main_step. rewrite Em, Es. eauto.
      * destruct (worker_progress e s (or_introl Es)) as (l & s1 & _ & Hs).
        eauto.
      * destruct (worker_progress e s
                    (or_intror (or_introl (ex_intro _ p Es))))
          as (l & s1 & _ & Hs).
        eauto.
      * exists LMain. cbn [step]. unfold main_step. rewrite Em, Es. eauto.
    + destruct (renderer s) as [|k| |x] eqn:Er.
      * exists LMain. cbn [step]. unfold main_step. rewrite Em, Er. eauto.
      * destruct (worker_progress e s
                    (or_intror (or_intror (ex_intro _ k Er))))
          as (l & s1 & _ & Hs).
        eauto.
      * exists LMain. cbn [step]. unfold main_step. rewrite Em, Er. eauto.
      * exists LMain. cbn [step]. unfold main_step. rewrite Em, Er. eauto.
Qed.

End Samples.

End Runs.

(** ** More of [render]: the bytes of a frame *)

Lemma concat_uniform_length {A} (b : nat) (ls : list (list A)) :
  (forall l, In l ls -> length l = b) -> length (concat ls) = length ls * b.
Proof.
  induction ls as [|l ls IH]; intros H; [reflexivity|].
  cbn [concat length]. rewrite length_app, (H l) by (now left).
  rewrite IH by (intros l' Hl'; apply H; now right). lia.
Qed.

(** [tobytes] lays a frame out row by row, pixel by pixel, channel last. *)
Lemma tobytes_layout (fr : frame) (W C h w c : nat) :
  rect W C fr -> h < length fr -> w < W -> c < C ->
  length (tobytes fr) = length fr * (W * C) /\
  nth ((h * W + w) * C + c) (tobytes fr) 0%Z = pixel_out fr h w c.
Proof.
  intros Hr Hh Hw Hc.
  assert (Hrow : forall j, j < length fr ->
            length (nth j fr []) = W /\
            forall l, In l (nth j fr []) -> length l = C).
  { intros j Hj. destruct (rect_nth W C fr j Hr Hj) as [H1 H2].
    split; [exact H1|]. intros l Hl.
    apply (In_nth _ _ []) in Hl. destruct Hl as (i & Hi & <-).
    apply H2. lia. }
  assert (Hcat : forall j, j < length (map (@concat Z) fr) ->
            length (nth j (map (@concat Z) fr) []) = W * C).
  { intros j Hj. rewrite length_map in Hj.
    rewrite (nth_map_in (@concat Z) fr j [] []) by exact Hj.
    destruct (Hrow j Hj) as [H1 H2].
    rewrite (concat_uniform_length C) by exact H2. rewrite H1. reflexivity. }
  assert (Hlen : length (tobytes fr) = length fr * (W * C)).
  { unfold tobytes. rewrite (concat_uniform_length (W * C)).
    - now rewrite length_map.
    - intros l Hl. apply (In_nth _ _ []) in Hl.
      destruct Hl as (j & Hj & <-). now apply Hcat. }
  split; [exact Hlen|].
  assert (Hin : w * C + c < W * C) by nia.
  assert (Hdiv : ((h * W + w) * C + c) / (W * C) = h).
  { symmetry. apply (Nat.div_unique _ _ h (w * C + c)); [exact Hin | nia]. }
  assert (Hmod : ((h * W + w) * C + c) mod (W * C) = w * C + c).
  { symmetry. apply (Nat.mod_unique _ _ h (w * C + c)); [exact Hin | nia]. }
  unfold tobytes.
  rewrite (nth_concat_uniform (W * C) (map (@concat Z) fr)); try nia.
  - rewrite Hdiv, Hmod.
    rewrite (nth_map_in (@concat Z) fr h [] []) by exact Hh.
    destruct (Hrow h Hh) as [H1 H2].
    rewrite (nth_concat_uniform C (nth h fr [])); try lia.
    + rewrite Nat.div_add_l, Nat.div_small, Nat.add_0_r by lia.
      rewrite Nat.add_comm, Nat.Div0.mod_add, Nat.mod_small by lia.
      reflexivity.
    + intros j Hj. apply H2, nth_In. lia.
    + intros j Hj. rewrite (H2 (nth j (nth h fr []) [])); [lia|].
      apply nth_In. exact Hj.
    + rewrite (concat_uniform_length C) by exact H2. rewrite H1. nia.
  - intros j Hj. apply Hcat. lia.
  - intros j Hj. rewrite Hcat by exact Hj. lia.
  - fold (tobytes fr). rewrite Hlen. nia.
Qed.

(** X10.  A raw image C x H x W that is not 2048 wide reaches the encoder as
    H * W * C bytes, pixel after pixel with the channels of a pixel side by
    side: byte (h * W + w) * C + c is the 8-bit value of input [c][h][w].
    For C = 3 this is the rgb24 layout the encoder was started with. *)
Theorem written_bytes_are_channel_interleaved (z : Z) (img : image)
    (C H W : nat) :
  length img = C -> rect H W img -> 0 < C -> 0 < H -> 0 < W -> W <> 2048 ->
  exists b, make_video_frame (output_size z) (format_image img) = Ok b /\
    length b = H * (W * C) /\
    forall h w c, h < H -> w < W -> c < C ->
      nth ((h * W + w) * C + c) b 0%Z =
      astype_uint8 (scale (pixel_in img c h w)).
Proof.
  intros HC Hr H0C H0H H0W Hne.
  destruct (format_image_shape H W img Hr) as [S0 S1]; [lia | lia |].
  rewrite HC in S1. unfold shape0 in S0.
  assert (S1' : shape1 (format_image img) = W).
  { unfold shape1. destruct (format_image img) as [|row fr];
      [cbn in S0; lia|].
    cbn [hd]. unfold rect in S1. apply Forall_inv in S1.
    destruct S1 as [Hrow _]. exact Hrow. }
  exists (tobytes (format_image img)). split.
  - rewrite make_video_frame_writes, sink_image_other; [reflexivity|].
    rewrite S1'. exact Hne.
  - split.
    + pose proof (tobytes_layout (format_image img) W C 0 0 0 S1
                    ltac:(lia) ltac:(lia) ltac:(lia)) as [Hl _].
      rewrite Hl, S0. reflexivity.
    + intros h w c Hh Hw Hc.
      pose proof (tobytes_layout (format_image img) W C h w c S1
                    ltac:(lia) ltac:(lia) ltac:(lia)) as [_ Hn].
      rewrite Hn. apply (format_image_pixel H W); try assumption; lia.
Qed.

(** ** More of [render]: a splitter that has returned *)

Lemma splitter_returned_step (e : env) (l : label) (s s' : state) :
  splitter s = SReturned -> step e l s = Some s' ->
  splitter s' = SReturned /\
  (exists later, split_queue s' = split_queue s ++ later) /\
  (exists taken, render_queue s = taken ++ render_queue s').
Proof.
  intros Es Hs.
  assert (Hsame : forall q : list raw_batch, exists later, q = q ++ later)
    by (intros q; exists []; now rewrite app_nil_r).
  assert (Hsame' : forall q : list frame, exists taken, q = taken ++ q)
    by (intros q; exists []; reflexivity).
  destruct l; cbn [step] in Hs.
  - unfold main_step in Hs.
    destruct (main s) as [[|n rest]| | | |x]; try discriminate Hs.
    + injection Hs as <-. cbn. auto.
    + injection Hs as <-. unfold main_batch.
      destruct (batch_step e (gen s) n) as [g' [[inp outputs]|x]];
        [|cbn; auto].
      unfold start_threads. cbn [splitter renderer]. rewrite Es.
      destruct (n =? 0); cbn; (split; [auto|]); split; eauto.
    + rewrite Es in Hs. injection Hs as <-. cbn. auto.
    + destruct (renderer s); try discriminate Hs; injection Hs as <-;
        cbn; auto.
  - unfold split_step in Hs. rewrite Es in Hs. discriminate.
  - unfold split_timeout in Hs. rewrite Es in Hs. discriminate.
  - unfold sink_step in Hs.
    destruct (renderer s) as [|[|k]| |x]; try discriminate Hs.
    + injection Hs as <-. cbn. auto.
    + destruct (render_queue s) as [|img q] eqn:Eq; try discriminate Hs.
      destruct (make_video_frame _ img); injection Hs as <-; cbn;
        (split; [auto|]); (split; [auto|]); exists [img]; reflexivity.
  - unfold sink_timeout in Hs.
    destruct (renderer s) as [|[|k]| |x]; try discriminate Hs.
    destruct (render_queue s) eqn:Eq; try discriminate Hs.
    injection Hs as <-. cbn. split; [auto|]. split; [auto|].
    exists []. reflexivity.
Qed.

(** X11.  Once the splitter has returned it stays so: from then on the batch
    queue only grows at its end and the render queue only loses frames at
    its front, so a batch enqueued after the splitter's timeout is never
    formatted. *)
Theorem splitter_that_returned_formats_no_more (e : env) allow
    (s s' : state) :
  splitter s = SReturned -> reach e allow s s' ->
  splitter s' = SReturned /\
  (exists later, split_queue s' = split_queue s ++ later) /\
  (exists taken, render_queue s = taken ++ render_queue s').
Proof.
  intros Es Hr. induction Hr as [|l s1 s2 _ IH _ Hst].
  - split; [exact Es|]. split; [exists []; now rewrite app_nil_r|].
    exists []. reflexivity.
  - destruct IH as (Es1 & (l1 & Hq1) & (t1 & Hr1)).
    destruct (splitter_returned_step e l s1 s2 Es1 Hst)
      as (Es2 & (l2 & Hq2) & (t2 & Hr2)).
    split; [exact Es2|]. split.
    + exists (l1 ++ l2). rewrite Hq2, Hq1, app_assoc. reflexivity.
    + exists (t1 ++ t2). rewrite Hr1, Hr2, app_assoc. reflexivity.
Qed.

End Render.

(** ** Concrete runs *)

(** A generator that paints each latent's first coordinate on a 1 x 1 image
    with three channels, a resize that repeats the top-left pixel, exact
    arithmetic for the rounding, and a parameter copy that succeeds. *)
Definition demo_generator (g : generator_state) (inp : gen_input nat)
  : raw_batch :=
  map (fun row => let v := hd 0%Q row in [[[v]]; [[v]]; [[v]]])
      (gi_styles nat inp).

Definition demo_resize (w h : nat) (img : frame) : frame :=
  repeat (repeat (hd [] (hd [] img)) w) h.

Definition no_rounding (x : Q) : Q := x.

Definition demo_copy (t : tensor) : result tensor := Ok t.

(** [n] latents with first coordinates 0/10, 1/10, ... *)
Definition ramp (n : nat) : tensor :=
  map (fun i => [(Z.of_nat i # 10)%Q]) (seq 0 n).

Definition demo_args (latents : tensor) (b : nat) (out : Z)
    (t : truncation_value) (rw : list (string * rewrite_obj)) : args nat :=
  {| a_generator := {| named_parameters := [("w"%string, [[1%Q]])];
                       attributes := [] |};
     a_latents := latents; a_noise := [None; Some latents];
     a_offset := 5; a_duration := 2; a_batch_size := b; a_out_size := out;
     a_output_file := "out.mp4"; a_audio_file := None; a_truncation := t;
     a_bends := []; a_rewrites := rw; a_randomize_noise := false |}.

(** The environment the setup gives for arguments without rewrites. *)
Definition demo_env (a : args nat) : env nat :=
  {| e_args := a;
     e_encoder :=
       {| enc_format := "rawvideo"; enc_pix_fmt := "rgb24";
          enc_framerate :=
            binary64
              (inject_Z (Z.of_nat (length (a_latents nat a))) / a_duration nat a);
          enc_s := output_size (a_out_size nat a);
          enc_audio := None; enc_output := a_output_file nat a |};
     e_rewrites := []; e_original_weights := [];
     e_truncation := a_truncation nat a |}.

Definition demo_step := step nat demo_generator demo_resize no_rounding.
Definition demo_run := run nat demo_generator demo_resize no_rounding.
Definition demo_reach := reach nat demo_generator demo_resize no_rounding.

(** N = 10, batch size 4, output size 512, no audio. *)
Definition scenario : args nat := demo_args (ramp 10) 4 512 (TFloat 1) [].

(** Two samples, one per batch. *)
Definition two_samples : args nat := demo_args (ramp 2) 1 512 (TFloat 1) [].

(** No sample. *)
Definition no_samples : args nat := demo_args [] 4 512 (TFloat 1) [].

(** [n] samples, one per batch. *)
Definition one_per_batch (n : nat) : args nat :=
  demo_args (repeat [0%Q] n) 1 512 (TFloat 1) [].

(** An unsupported output size. *)
Definition odd_size : args nat := demo_args (ramp 2) 1 720 (TFloat 1) [].

(** The default truncation, the integer 1. *)
Definition default_truncation : args nat :=
  demo_args (ramp 2) 1 512 (TInt 1) [].

(** One rewrite of the parameter "w". *)
Definition one_rewrite : args nat :=
  demo_args (ramp 2) 1 512 (TFloat 1)
    [("w"%string,
      OTuple [OFun (fun (w : tensor) (n : nat) => w); OTensor (ramp 2)])].

(** A module in which something bound [original_weights] to a dict. *)
Definition patched_globals : module_globals :=
  {| original_weights := Some [] |}.

(** A 512 x 512 frame, and a frame 2048 pixels wide. *)
Definition square_frame : frame := repeat (repeat [0; 0; 0]%Z 512) 512.
Definition wide_frame : frame := [repeat [7; 8; 9]%Z 2048].

(** One batch of two images, 3 x 1 x 2. *)
Definition small_batch : raw_batch :=
  [ [[[-2; 0]]; [[1 # 2; 3]]; [[-1 # 2; 1]]];
    [[[1; 1]]; [[0; 0]]; [[-1; -1]]] ]%Q.

(** The whole of the N = 10 scenario on one schedule: three batches, the
    splitter, the sink, the joins. *)
Definition scenario_schedule : list label :=
  repeat LMain 3 ++ repeat LSplit 16 ++ [LSplitTimeout] ++ repeat LSink 11
  ++ repeat LMain 3.

(** The scheduler stops after the first of two batches. *)
Definition starved_schedule : list label :=
  [LSplit; LSplit; LSplit; LSink; LSplitTimeout; LSinkTimeout].


Definition after_first_batch : state nat :=
  Eval vm_compute in
    match demo_run (demo_env two_samples) [LMain]
            (init_state nat (demo_env two_samples)) with
    | Some s => s
    | None => init_state nat (demo_env two_samples)
    end.

Definition starved_end : state nat :=
  Eval vm_compute in
    match demo_run (demo_env two_samples) starved_schedule after_first_batch with
    | Some s => s
    | None => after_first_batch
    end.

Lemma demo_generator_length (g : generator_state) (inp : gen_input nat) :
  length (demo_generator g inp) = length (gi_styles nat inp).
Proof. unfold demo_generator. apply length_map. Defined.

Example scenario_runs :
  exists s, demo_run (demo_env scenario) scenario_schedule
              (init_state nat (demo_env scenario)) = Some s /\
    main nat s = MReturned /\
    map (fun inp => length (gi_styles nat inp)) (calls nat s) = [4; 4; 2] /\
    stdin_writes (video nat s) =
      [[127; 127; 127]; [140; 140; 140]; [153; 153; 153]; [165; 165; 165];
       [178; 178; 178]; [191; 191; 191]; [204; 204; 204]; [216; 216; 216];
       [229; 229; 229]; [242; 242; 242]]%Z /\
    stdin_closed (video nat s) = true /\ waited (video nat s) = true /\
    enc_framerate (e_encoder nat (demo_env scenario)) == 5.
Proof.
  eexists. split; [vm_compute; reflexivity|].
  repeat split; reflexivity.
Qed.

(** *** The theorems at concrete arguments *)



Lemma queues_bound_witness :
  render_setup nat demo_copy render_py_globals scenario = Ok (demo_env scenario) /\
  forall s,
    demo_reach (demo_env scenario) (any_step nat)
      (init_state nat (demo_env scenario)) s ->
    length (split_queue nat s) <= 3 /\ length (render_queue nat s) <= 10.
Proof.
  split; [reflexivity|].
  intros s Hr.
  destruct (queues_are_bounded_by_the_run_only nat demo_generator demo_resize
              no_rounding demo_copy render_py_globals scenario
              (demo_env scenario))
    as (H & _).
  - reflexivity.
  - reflexivity.
  - vm_compute. lia.
  - exact demo_generator_length.
  - exact (H s Hr).
Defined.

Lemma render_without_samples_witness :
  render_setup nat demo_copy render_py_globals no_samples =
    Ok (demo_env no_samples) /\
  length (a_latents nat no_samples) = 0 /\
  exists s, demo_run (demo_env no_samples) [LMain; LMain]
              (init_state nat (demo_env no_samples)) = Some s /\
            main nat s = MRaised RuntimeError /\
            forall l, demo_step (demo_env no_samples) l s = None.
Proof.
  split; [reflexivity|]. split; [reflexivity|].
  destruct (render_without_samples_fails_at_join nat demo_generator demo_resize
              no_rounding demo_copy render_py_globals no_samples
              (demo_env no_samples))
    as (H & _).
  - reflexivity.
  - destruct (H eq_refl) as (_ & H2 & _). apply H2. vm_compute. lia.
Defined.

Lemma output_size_witness :
  a_out_size nat odd_size = 720%Z /\
  output_size (a_out_size nat odd_size) = "1920x1080"%string /\
  forall e, render_setup nat demo_copy render_py_globals odd_size = Ok e ->
            enc_s (e_encoder nat e) = "1920x1080"%string.
Proof.
  split; [reflexivity|].
  destruct (output_size_falls_back_to_1920x1080 nat demo_copy render_py_globals
              odd_size)
    as (H1 & _ & _ & H4 & _).
  - vm_compute. discriminate.
  - vm_compute. discriminate.
  - split; [exact H1 | exact H4].
Defined.

Lemma split_batches_witness :
  length (split_frames no_rounding small_batch) = 2 /\
  pixel_out (nth 0 (split_frames no_rounding small_batch) []) 0 0 0 = 0%Z /\
  pixel_out (nth 0 (split_frames no_rounding small_batch) []) 0 1 1 = 255%Z /\
  pixel_out (nth 0 (split_frames no_rounding small_batch) []) 0 0 1 = 191%Z.
Proof.
  destruct (split_batches_formats_each_frame nat demo_generator demo_resize
              no_rounding) with (imgs := small_batch) (C := 3) (H := 1) (W := 2)
    as (Hlen & Hpx & _).
  - intros x y Hxy. exact Hxy.
  - reflexivity.
  - reflexivity.
  - reflexivity.
  - lia.
  - lia.
  - repeat constructor.
  - split; [exact Hlen|].
    destruct (Hpx 0) as (_ & _ & H); [vm_compute; lia|].
    split; [|split].
    + destruct (H 0 0 0) as (_ & _ & _ & _ & _ & Hlow & _); [lia | lia | lia |].
      apply Hlow. vm_compute. discriminate.
    + destruct (H 0 1 1) as (_ & _ & _ & _ & _ & _ & Hhigh & _);
        [lia | lia | lia |].
      apply Hhigh. vm_compute. discriminate.
    + destruct (H 0 0 1) as (E & _); [lia | lia | lia |].
      rewrite E. reflexivity.
Defined.

(** *** Where the code and the specification part *)

(** C2.  With one rewrite given, [render] raises NameError at line 105: the
    module binds no [original_weights].  Where something has bound that
    name, the setup passes and the first batch raises TypeError at line
    135, which calls the list that line 104 stored; no attribute is set on
    the generator, no forward pass is made and no worker is started. *)
Theorem rewrite_is_never_installed :
  render_setup nat demo_copy render_py_globals one_rewrite = Raise NameError /\
  exists e s,
    render_setup nat demo_copy patched_globals one_rewrite = Ok e /\
    demo_run e [LMain] (init_state nat e) = Some s /\
    main nat s = MRaised TypeError /\
    attributes (gen nat s) = [] /\ calls nat s = [] /\
    splitter nat s = SNotStarted /\ renderer nat s = RNotStarted.
Proof.
  split; [reflexivity|].
  eexists. eexists. split; [reflexivity|].
  split; [reflexivity|]. repeat split.
Qed.

(** C3.  A 512 x 512 frame dequeued while the declared size is 1024x1024
    is not 2048 wide and matches nothing, yet line 81 lets it through and
    line 85 writes its bytes: the assertion is on a non-empty tuple. *)
Theorem mismatched_frame_is_written :
  output_size 1024 = "1024x1024"%string /\
  shape0 square_frame = 512 /\ shape1 square_frame = 512 /\
  make_video_frame demo_resize (output_size 1024) square_frame =
    Ok (tobytes square_frame).
Proof.
  assert (H1 : shape1 square_frame = 512) by (vm_compute; reflexivity).
  split; [reflexivity|]. split; [vm_compute; reflexivity|].
  split; [exact H1|].
  rewrite make_video_frame_writes, sink_image_other; [reflexivity|].
  rewrite H1. discriminate.
Qed.

(** C4.  With the declared size 1024x1024 a frame 2048 pixels wide is
    cropped to 1824 columns and resized to 1920 x 1080 all the same.  The
    comparison of line 82 is false for the resized frame and asserting it
    would raise, yet no AssertionError is raised and the frame is written:
    line 81 asserts the non-empty tuple, as it does in C3. *)
Theorem crop_ignores_the_declared_size :
  output_size 1024 = "1024x1024"%string /\ shape1 wide_frame = 2048 /\
  shape1 (crop_columns wide_frame) = 1824 /\
  sink_image demo_resize wide_frame =
    demo_resize 1920 1080 (crop_columns wide_frame) /\
  shape0 (sink_image demo_resize wide_frame) = 1080 /\
  shape1 (sink_image demo_resize wide_frame) = 1920 /\
  (exists msg,
     size_check (output_size 1024) (sink_image demo_resize wide_frame) =
       Ok (OTuple [OBool false; OStr msg]) /\
     assert_ (OTuple [OBool false; OStr msg] : obj unit unit) = Ok tt /\
     assert_ (OBool false : obj unit unit) = Raise AssertionError) /\
  make_video_frame demo_resize (output_size 1024) wide_frame =
    Ok (tobytes (demo_resize 1920 1080 (crop_columns wide_frame))) /\
  make_video_frame demo_resize (output_size 1024) wide_frame <>
    Raise AssertionError.
Proof.
  assert (Hw : shape1 wide_frame = 2048) by (vm_compute; reflexivity).
  pose proof (sink_image_wide demo_resize wide_frame Hw) as Hs.
  split; [reflexivity|]. split; [exact Hw|].
  split; [vm_compute; reflexivity|]. split; [exact Hs|].
  split; [vm_compute; reflexivity|]. split; [vm_compute; reflexivity|].
  split.
  - eexists. split; [vm_compute; reflexivity|]. split; reflexivity.
  - rewrite (wide_frame_is_written demo_resize 1024 wide_frame Hw).
    split; [reflexivity | discriminate].
Qed.



(** C6.  With the default truncation, the integer 1, the setup raises
    AttributeError at line 112: no batch runs, none gets the scalar. *)
Theorem default_truncation_stops_the_setup :
  a_truncation nat default_truncation = TInt 1 /\
  render_setup nat demo_copy render_py_globals default_truncation =
    Raise AttributeError.
Proof. split; reflexivity. Qed.

Lemma one_per_batch_fills (cap : nat) :
  exists s,
    demo_reach (demo_env (one_per_batch cap)) (any_step nat)
      (init_state nat (demo_env (one_per_batch cap))) s /\
    length (split_queue nat s) = cap.
Proof.
  edestruct (queue_fills nat demo_generator demo_resize no_rounding
               (demo_env (one_per_batch cap))) with (k := cap)
    as (s & Hrun & _ & Hlen).
  - reflexivity.
  - intros z. discriminate.
  - exists 512%Z. reflexivity.
  - cbn. lia.
  - change (cap <= ceil_div (length (repeat [0%Q] cap)) 1).
    rewrite repeat_length. unfold ceil_div.
    replace (cap + 1 - 1) with cap by lia. rewrite Nat.div_1_r. lia.
  - exists s. split; [|exact Hlen].
    eapply run_reach; [|exact Hrun]. reflexivity.
Qed.

(** C8, the claim as stated fails.  No capacity bounds the batch queue:
    with [cap] samples, one per batch, the scheduler can have [cap] batches
    pending. *)
Lemma queues_have_no_capacity :
  ~ exists cap, forall n s,
      demo_reach (demo_env (one_per_batch n)) (any_step nat)
        (init_state nat (demo_env (one_per_batch n))) s ->
      length (split_queue nat s) < cap.
Proof.
  intros [cap H].
  destruct (one_per_batch_fills cap) as (s & Hr & Hlen).
  specialize (H cap s Hr). lia.
Qed.

(** ** More concrete runs *)


(** Two samples, one per batch, with a static and a modulated bend; the
    transforms are numbers, a modulated one being the number of rows it is
    given. *)
Definition bent : args nat :=
  {| a_generator := a_generator nat scenario; a_latents := ramp 2;
     a_noise := [None; Some (ramp 2)]; a_offset := 0; a_duration := 2;
     a_batch_size := 1; a_out_size := 512; a_output_file := "out.mp4";
     a_audio_file := None; a_truncation := TTensor (ramp 2);
     a_bends := [BendStatic nat "conv1" 7;
                 BendMod nat "conv2" (fun m => length m) (ramp 2)];
     a_rewrites := []; a_randomize_noise := true |}.

Definition bent_first_batch : state nat :=
  Eval vm_compute in
    match demo_run (setup_env nat bent) [LMain]
            (init_state nat (setup_env nat bent)) with
    | Some s => s
    | None => init_state nat (setup_env nat bent)
    end.

(** The sink dies after one frame of two, the scheduler goes on, and
    [render] returns. *)
Definition silent_schedule : list label := repeat LMain 4.

Definition silent_end : state nat :=
  Eval vm_compute in
    match demo_run (demo_env two_samples) silent_schedule starved_end with
    | Some s => s
    | None => starved_end
    end.

Lemma starved_end_reached :
  demo_reach (demo_env two_samples) (any_step nat)
    (init_state nat (demo_env two_samples)) starved_end.
Proof.
  apply (run_reach nat demo_generator demo_resize no_rounding _
           (any_step nat) (LMain :: starved_schedule)); [reflexivity|].
  vm_compute. reflexivity.
Defined.

Lemma silent_end_reached :
  demo_reach (demo_env two_samples) (any_step nat)
    (init_state nat (demo_env two_samples)) silent_end.
Proof.
  apply (run_reach nat demo_generator demo_resize no_rounding _
           (any_step nat) (LMain :: starved_schedule ++ silent_schedule));
    [reflexivity|].
  vm_compute. reflexivity.
Defined.

Lemma bent_first_batch_reached :
  demo_reach (setup_env nat bent) (any_step nat)
    (init_state nat (setup_env nat bent)) bent_first_batch.
Proof.
  apply (run_reach nat demo_generator demo_resize no_rounding _
           (any_step nat) [LMain]); [reflexivity|].
  vm_compute. reflexivity.
Defined.

Lemma render_setup_witness :
  render_setup nat demo_copy render_py_globals scenario =
    Ok (setup_env nat scenario).
Proof.
  apply (proj1 (render_setup_succeeds_iff nat demo_generator demo_copy scenario)).
  split; [reflexivity|]. split; [reflexivity|]. intros z. discriminate.
Defined.


Lemma sink_count_witness :
  length (stdin_writes (video nat starved_end)) <= 2 /\
  (stdin_closed (video nat starved_end) = true <->
   renderer nat starved_end = RDone).
Proof.
  destruct (sink_writes_at_most_n_frames nat demo_generator demo_resize
              no_rounding (demo_env two_samples) (any_step nat) starved_end
              starved_end_reached)
    as (H1 & H2 & _).
  split; [exact H1 | exact H2].
Defined.

Lemma forward_passes_witness :
  exists k, k <= 2 /\ length (calls nat bent_first_batch) = k /\
    gen nat bent_first_batch = a_generator nat bent.
Proof.
  destruct (forward_passes_are_the_first_batches nat demo_generator demo_resize
              no_rounding demo_copy render_py_globals bent
              (setup_env nat bent))
    with (s := bent_first_batch)
    as (k & Hk & _ & Hlen & Hg & _).
  - reflexivity.
  - reflexivity.
  - vm_compute. lia.
  - exact bent_first_batch_reached.
  - exists k. split; [exact Hk|]. split; [exact Hlen | exact Hg].
Defined.

Lemma noise_witness :
  exists inp, nth_error (calls nat bent_first_batch) 0 = Some inp /\
    length (gi_noise nat inp) = 2 /\
    nth_error (gi_noise nat inp) 0 = Some None /\
    nth_error (gi_noise nat inp) 1 = Some (Some (slice 0 1 (ramp 2))).
Proof.
  destruct (nth_error (calls nat bent_first_batch) 0) as [inp|] eqn:E;
    [|discriminate E].
  exists inp. split; [reflexivity|].
  destruct (noise_follows_the_batch nat demo_generator demo_resize
              no_rounding demo_copy render_py_globals bent
              (setup_env nat bent))
    with (s := bent_first_batch) (j := 0) (inp := inp)
    as (Hlen & Hk).
  - reflexivity.
  - reflexivity.
  - vm_compute. lia.
  - exact bent_first_batch_reached.
  - exact E.
  - split; [exact Hlen|]. split.
    + apply (proj1 (Hk 0)). reflexivity.
    + exact (proj1 (proj2 (Hk 1) (ramp 2) eq_refl)).
Defined.

Lemma bends_witness :
  exists inp, nth_error (calls nat bent_first_batch) 0 = Some inp /\
    map fst (gi_transform_dict_list nat inp) = ["conv1"; "conv2"]%string /\
    nth_error (gi_transform_dict_list nat inp) 1 = Some ("conv2"%string, 1).
Proof.
  destruct (nth_error (calls nat bent_first_batch) 0) as [inp|] eqn:E;
    [|discriminate E].
  exists inp. split; [reflexivity|].
  destruct (bends_keep_their_order nat demo_generator demo_resize
              no_rounding demo_copy render_py_globals bent
              (setup_env nat bent))
    with (s := bent_first_batch) (j := 0) (inp := inp)
    as (Hl & Hn).
  - reflexivity.
  - reflexivity.
  - vm_compute. lia.
  - exact bent_first_batch_reached.
  - exact E.
  - split; [exact Hl|].
    exact (Hn 1 (BendMod nat "conv2" (fun m => length m) (ramp 2)) eq_refl).
Defined.


(** The environment of [two_samples] with a size string that has no "x":
    line 82 raises IndexError on the first frame. *)
Definition unparsed_size : env nat :=
  {| e_args := two_samples;
     e_encoder :=
       {| enc_format := "rawvideo"; enc_pix_fmt := "rgb24";
          enc_framerate := 1; enc_s := "512";
          enc_audio := None; enc_output := "out.mp4" |};
     e_rewrites := []; e_original_weights := [];
     e_truncation := TFloat 1 |}.

Definition broken_sink_schedule : list label :=
  [LMain; LSplit; LSplit; LSink; LSplit; LMain; LSplit; LSplit; LSplit;
   LMain; LSplitTimeout; LMain; LMain].

Definition broken_sink_end : state nat :=
  Eval vm_compute in
    match demo_run unparsed_size broken_sink_schedule
            (init_state nat unparsed_size) with
    | Some s => s
    | None => init_state nat unparsed_size
    end.

Lemma broken_sink_end_reached :
  demo_reach unparsed_size (any_step nat) (init_state nat unparsed_size)
    broken_sink_end.
Proof.
  apply (run_reach nat demo_generator demo_resize no_rounding _
           (any_step nat) broken_sink_schedule); [reflexivity|].
  vm_compute. reflexivity.
Defined.

Lemma silent_return_witness :
  (main nat silent_end = MReturned /\
   renderer nat silent_end = RRaised Empty /\
   length (stdin_writes (video nat silent_end)) < 2 /\
   stdin_closed (video nat silent_end) = false) /\
  (main nat broken_sink_end = MReturned /\
   renderer nat broken_sink_end = RRaised IndexError /\
   length (stdin_writes (video nat broken_sink_end)) < 2 /\
   stdin_closed (video nat broken_sink_end) = false).
Proof.
  split.
  - destruct (render_returns_whatever_ends_the_sink nat demo_generator
                demo_resize no_rounding (demo_env two_samples))
      with (s := silent_end) as (_ & H & _).
    + reflexivity.
    + intros z. discriminate.
    + vm_compute. lia.
    + vm_compute. lia.
    + exact silent_end_reached.
    + split; [reflexivity|]. split; [reflexivity|].
      destruct (H eq_refl) as (_ & [(Hd & _) | (x & _ & Hl & Hc & _)]).
      * discriminate Hd.
      * split; [exact Hl | exact Hc].
  - destruct (render_returns_whatever_ends_the_sink nat demo_generator
                demo_resize no_rounding unparsed_size)
      with (s := broken_sink_end) as (_ & H & _).
    + reflexivity.
    + intros z. discriminate.
    + vm_compute. lia.
    + vm_compute. lia.
    + exact broken_sink_end_reached.
    + split; [reflexivity|]. split; [reflexivity|].
      destruct (H eq_refl) as (_ & [(Hd & _) | (x & _ & Hl & Hc & _)]).
      * discriminate Hd.
      * split; [exact Hl | exact Hc].
Defined.

Lemma can_return_witness :
  exists sched s',
    demo_run (demo_env two_samples) sched starved_end = Some s' /\
    main nat s' = MReturned.
Proof.
  destruct (render_can_always_return nat demo_generator demo_resize
              no_rounding demo_copy render_py_globals two_samples
              (demo_env two_samples))
    with (s := starved_end)
    as (sched & s' & Hrun & Hret & _).
  - reflexivity.
  - reflexivity.
  - vm_compute. lia.
  - vm_compute. lia.
  - exact starved_end_reached.
  - exists sched, s'. split; [exact Hrun | exact Hret].
Defined.

Lemma bytes_layout_witness :
  exists b,
    make_video_frame demo_resize (output_size 512)
      (format_image no_rounding (nth 0 small_batch [])) = Ok b /\
    length b = 6 /\ nth 4 b 0%Z = 255%Z.
Proof.
  destruct (written_bytes_are_channel_interleaved demo_resize no_rounding 512
              (nth 0 small_batch []) 3 1 2)
    as (b & Hb & Hl & Hn).
  - reflexivity.
  - repeat constructor.
  - lia.
  - lia.
  - lia.
  - discriminate.
  - exists b. split; [exact Hb|]. split; [exact Hl|].
    exact (Hn 0 1 1 ltac:(lia) ltac:(lia) ltac:(lia)).
Defined.

Lemma splitter_returned_witness :
  splitter nat silent_end = SReturned /\
  exists later, split_queue nat silent_end =
                split_queue nat starved_end ++ later.
Proof.
  destruct (splitter_that_returned_formats_no_more nat demo_generator
              demo_resize no_rounding (demo_env two_samples) (any_step nat)
              starved_end silent_end)
    as (H1 & H2 & _).
  - reflexivity.
  - apply (run_reach nat demo_generator demo_resize no_rounding _
             (any_step nat) silent_schedule); [reflexivity|].
    vm_compute. reflexivity.
  - split; [exact H1 | exact H2].
Defined.
